(** * PyFunceble: the collection query tool

    A shallow embedding of [PyFunceble/query/collection.py]
    (class [CollectionQueryTool]) and the properties of its setters, of the
    API generation guess, and of [pull] and [push].

    Python objects are values of the inductive type [value]; a method of the
    class is a computation in a state and exception monad over a [world]: the
    attributes of the instance together with the log of the calls made to
    the session.  The session, with the library and the remote service behind
    it, is a function from the calls made so far and the current call to an
    [outcome]: a response, or an exception of any class. *)

From Stdlib Require Import String Ascii ZArith QArith List Bool Lia.
Import ListNotations.

Local Open Scope string_scope.
Local Open Scope Z_scope.

(** ** Python values *)

Module Py.

(** The three status classes accepted by [push]. *)
Inductive status_class : Type :=
| AvailabilityCheckerStatus
| SyntaxCheckerStatus
| ReputationCheckerStatus.

(** What the client reads of a status object.  [expiration_date] is [None]
    when the object has no such attribute ([hasattr] is false); [to_json] and
    [to_dict] are the results of the methods of these names: a string, and a
    dictionary whose values are any objects, those that [json] cannot
    serialize among them. *)
Record status_of (V : Type) : Type := mk_status {
  status_cls : status_class;
  subject : V;
  checker_type : V;
  expiration_date : option V;
  to_json : string;
  to_dict : list (string * V)
}.

Arguments mk_status {V}.
Arguments status_cls {V}.
Arguments subject {V}.
Arguments checker_type {V}.
Arguments expiration_date {V}.
Arguments to_json {V}.
Arguments to_dict {V}.

(** [VObject cls truth] is an object of any other class, a [datetime] for
    one, with what [bool] gives on it. *)
#[warnings="-register-all"]
Inductive value : Type :=
| VNone
| VBool (b : bool)
| VInt (z : Z)
| VFloat (q : Q)
| VStr (s : string)
| VList (l : list value)
| VDict (d : list (string * value))
| VStatus (st : status_of value)
| VObject (cls : string) (truth : bool).

Definition checker_status : Type := status_of value.

(** [bool(v)]. *)
Definition truthy (v : value) : bool :=
  match v with
  | VNone => false
  | VBool b => b
  | VInt z => negb (z =? 0)
  | VFloat q => negb (Qeq_bool q 0)
  | VStr s => negb (s =? "")%string
  | VList l => match l with [] => false | _ => true end
  | VDict d => match d with [] => false | _ => true end
  | VStatus _ => true
  | VObject _ truth => truth
  end.

(** [bool(x)] for an attribute of type [Optional[str]]. *)
Definition truthy_opt_str (o : option string) : bool :=
  match o with
  | Some s => negb (s =? "")%string
  | None => false
  end.

(** [bool(x)] for an attribute of type [Optional[bool]]. *)
Definition truthy_opt_bool (o : option bool) : bool :=
  match o with
  | Some b => b
  | None => false
  end.

(** [f"{x}"] for an attribute of type [Optional[str]]. *)
Definition format_opt_str (o : option string) : string :=
  match o with
  | Some s => s
  | None => "None"
  end.

(** [s.startswith(p)] and [s.startswith((p1, p2, ...))]. *)
Definition startswith (s p : string) : bool := String.prefix p s.

Definition startswith_any (s : string) (ps : list string) : bool :=
  existsb (startswith s) ps.

(** [s.rstrip("/")]: every trailing ['/'] is removed. *)
Definition is_slash (c : ascii) : bool := Ascii.eqb c "/"%char.

Fixpoint rstrip_slash (s : string) : string :=
  match s with
  | EmptyString => EmptyString
  | String c r =>
      match rstrip_slash r with
      | EmptyString => if is_slash c then EmptyString else String c EmptyString
      | r' => String c r'
      end
  end.

(** [s.lower()], on the ASCII letters. *)
Definition lower_ascii (c : ascii) : ascii :=
  let n := nat_of_ascii c in
  if (Nat.leb 65 n && Nat.leb n 90)%bool then ascii_of_nat (n + 32) else c.

Fixpoint lower (s : string) : string :=
  match s with
  | EmptyString => EmptyString
  | String c r => String (lower_ascii c) (lower r)
  end.

(** [x in l] for a list of strings. *)
Definition str_in (x : string) (l : list string) : bool :=
  existsb (String.eqb x) l.

(** [n] copies of the character ['/']. *)
Fixpoint slashes (n : nat) : string :=
  match n with
  | O => EmptyString
  | S k => String "/"%char (slashes k)
  end.

(** The last character of a string is ['/']. *)
Fixpoint ends_with_slash (s : string) : bool :=
  match s with
  | EmptyString => false
  | String c EmptyString => is_slash c
  | String _ r => ends_with_slash r
  end.

End Py.

Import Py.

(** ** Exceptions, requests and the remote service *)

(** The exceptions of [requests.RequestException] and of
    [json.decoder.JSONDecodeError]: what the [except] clauses of the class
    catch. *)
Inductive net_exn : Type :=
| RequestException
| JSONDecodeError.

(** The exceptions.  [NetError] holds the two classes above; a [ValueError]
    is not a [JSONDecodeError], and no [except] clause of the class catches
    it, nor a [TypeError], a [RecursionError] or an exception of another
    class. *)
Inductive exn : Type :=
| TypeError
| ValueError
| NetError (e : net_exn)
| RecursionError
| OtherError (cls : string).

(** What a call gives: a value, or an exception. *)
Inductive result (A : Type) : Type :=
| Ok (a : A)
| Raise (e : exn).

Arguments Ok {A}.
Arguments Raise {A}.

Inductive http_method : Type := GET | POST.

(** The keyword arguments [json=] and [data=] of [Session.post]. *)
Inductive payload : Type :=
| NoPayload
| JsonPayload (v : value)
| DataPayload (v : value).

Record request : Type := mk_request {
  req_method : http_method;
  req_url : string;
  req_payload : payload;
  req_timeout : value
}.

(** What a call of [Session.get] or [Session.post] gives: a response, with
    its status code and with what [response.json()] gives on it (a value, a
    [JSONDecodeError], or an exception of another class, as the parser
    raises on a body it cannot handle); or an exception raised by the call
    itself, of any class (the library raises a [ValueError] for a timeout it
    refuses and a [TypeError] for a [json] payload it cannot serialize,
    besides the [RequestException]s). *)
Inductive outcome : Type :=
| Responded (status_code : Z) (body : result value)
| Raised (e : exn).

(** The call raises an exception of the two classes the methods catch. *)
Definition Failed (e : net_exn) : outcome := Raised (NetError e).

(** A body that is not JSON. *)
Definition not_json : result value := Raise (NetError JSONDecodeError).

Definition service : Type := list request -> request -> outcome.

Record response : Type := mk_response {
  resp_status_code : Z;
  resp_body : result value
}.

(** ** The instance *)

(** The attributes of a [CollectionQueryTool]. *)
Record client : Type := mk_client {
  _token : option string;
  _url_base : option string;
  _preferred_status_origin : option string;
  _is_modern_api : option bool;
  _timeout : value
}.

(** The class attributes. *)
Definition SUPPORTED_CHECKERS : list string :=
  ["syntax"; "reputation"; "availability"].
Definition SUPPORTED_STATUS_ORIGIN : list string :=
  ["frequent"; "latest"; "recommended"].
Definition STD_URL_BASE : string := "http://localhost:8001".
Definition STD_PREFERRED_STATUS_ORIGIN : string := "frequent".
Definition STD_TIMEOUT : value := VFloat (5 # 1).

(** The instance before [__init__] has run: the class defaults. *)
Definition class_defaults : client :=
  {| _token := None;
     _url_base := None;
     _preferred_status_origin := None;
     _is_modern_api := None;
     _timeout := VFloat (5 # 1) |}.

Record world : Type := mk_world {
  self : client;
  sent : list request
}.

Definition fresh (c : client) : world := {| self := c; sent := [] |}.

(** ** The monad of methods *)

Definition M (A : Type) : Type := world -> result A * world.

Definition ret {A} (a : A) : M A := fun w => (Ok a, w).

Definition bind {A B} (m : M A) (k : A -> M B) : M B :=
  fun w =>
    match m w with
    | (Ok a, w') => k a w'
    | (Raise e, w') => (Raise e, w')
    end.

Definition raise {A} (e : exn) : M A := fun w => (Raise e, w).

(** [try: m except (requests.RequestException, json.decoder.JSONDecodeError): h]:
    the state changes made by [m] before it raised are kept. *)
Definition try_except {A} (m : M A) (h : M A) : M A :=
  fun w =>
    match m w with
    | (Raise (NetError _), w') => h w'
    | r => r
    end.

Definition get_self : M client := fun w => (Ok (self w), w).

Definition modify_self (f : client -> client) : M unit :=
  fun w => (Ok tt, {| self := f (self w); sent := sent w |}).

Declare Scope method_scope.
Delimit Scope method_scope with method.
Notation "x <- m ;; k" := (bind m (fun x => k))
  (at level 100, m at next level, right associativity) : method_scope.
Notation "m ;;; k" := (bind m (fun _ => k))
  (at level 100, right associativity) : method_scope.
Local Open Scope method_scope.

Definition run {A} (m : M A) (w : world) : result A * world := m w.
Definition outcome_of {A} (m : M A) (w : world) : result A := fst (m w).
Definition after {A} (m : M A) (w : world) : world := snd (m w).

(** ** The surroundings of an instance *)

(** [PyFunceble.storage.CONFIGURATION], as far as the class reads it. *)
Record configuration : Type := mk_configuration {
  collection_url_base : value;
  collection_preferred_status_origin : value;
  lookup_timeout : value
}.

(** The two environment variables the class reads through
    [EnvironmentVariableHelper], and the loaded configuration:
    [CONFIGURATION] is [Some] exactly when
    [PyFunceble.facility.ConfigLoader.is_already_loaded()]. *)
Record environment : Type := mk_environment {
  PYFUNCEBLE_COLLECTION_API_TOKEN : option string;
  PYFUNCEBLE_COLLECTION_API_URL : option string;
  CONFIGURATION : option configuration
}.

(** [EnvironmentVariableHelper(name).get_value(default=d)]. *)
Definition get_value (var : option string) (default : value) : value :=
  match var with
  | Some s => VStr s
  | None => default
  end.

(** [Response.raise_for_status()] of the requests library raises an
    [HTTPError], a [RequestException], for the status codes 400 to 599. *)
Definition is_error_status (code : Z) : bool :=
  (400 <=? code) && (code <? 600).

(** ** The methods *)

Section CollectionQueryTool.

Variable net : service.
Variable env : environment.

(** One call of the session: the call is logged, and the session gives a
    response or raises. *)
Definition send (r : request) : M response :=
  fun w =>
    let w' := {| self := self w; sent := sent w ++ [r] |} in
    match net (sent w) r with
    | Responded code body => (Ok (mk_response code body), w')
    | Raised e => (Raise e, w')
    end.

Definition session_get (url : string) (timeout : value) : M response :=
  send (mk_request GET url NoPayload timeout).

Definition session_post (url : string) (p : payload) (timeout : value)
  : M response :=
  send (mk_request POST url p timeout).

Definition response_json (r : response) : M value :=
  match resp_body r with
  | Ok v => ret v
  | Raise e => raise e
  end.

Definition raise_for_status (r : response) : M unit :=
  if is_error_status (resp_status_code r)
  then raise (NetError RequestException)
  else ret tt.

(** *** Properties and their setters *)

Definition token : M (option string) :=
  c <- get_self ;; ret (_token c).

Definition token_set (v : value) : M unit :=
  match v with
  | VStr s =>
      modify_self (fun c =>
        {| _token := Some s;
           _url_base := _url_base c;
           _preferred_status_origin := _preferred_status_origin c;
           _is_modern_api := _is_modern_api c;
           _timeout := _timeout c |})
  | _ => raise TypeError
  end.

Definition url_base : M (option string) :=
  c <- get_self ;; ret (_url_base c).

Definition url_base_set (v : value) : M unit :=
  match v with
  | VStr s =>
      if negb (startswith_any s ["http"; "https"])
      then raise ValueError
      else
        modify_self (fun c =>
          {| _token := _token c;
             _url_base := Some (rstrip_slash s);
             _preferred_status_origin := _preferred_status_origin c;
             _is_modern_api := _is_modern_api c;
             _timeout := _timeout c |})
  | _ => raise TypeError
  end.

Definition is_modern_api : M (option bool) :=
  c <- get_self ;; ret (_is_modern_api c).

Definition is_modern_api_set (v : value) : M unit :=
  match v with
  | VBool b =>
      modify_self (fun c =>
        {| _token := _token c;
           _url_base := _url_base c;
           _preferred_status_origin := _preferred_status_origin c;
           _is_modern_api := Some b;
           _timeout := _timeout c |})
  | _ => raise TypeError
  end.

Definition timeout : M value :=
  c <- get_self ;; ret (_timeout c).

(** [isinstance(value, (int, float))]: a [bool] is an [int]. *)
Definition timeout_set (v : value) : M unit :=
  match v with
  | VBool _ | VInt _ | VFloat _ =>
      modify_self (fun c =>
        {| _token := _token c;
           _url_base := _url_base c;
           _preferred_status_origin := _preferred_status_origin c;
           _is_modern_api := _is_modern_api c;
           _timeout := v |})
  | _ => raise TypeError
  end.

Definition preferred_status_origin : M (option string) :=
  c <- get_self ;; ret (_preferred_status_origin c).

Definition preferred_status_origin_set (v : value) : M unit :=
  match v with
  | VStr s =>
      if negb (str_in s SUPPORTED_STATUS_ORIGIN)
      then raise ValueError
      else
        modify_self (fun c =>
          {| _token := _token c;
             _url_base := _url_base c;
             _preferred_status_origin := Some s;
             _is_modern_api := _is_modern_api c;
             _timeout := _timeout c |})
  | _ => raise TypeError
  end.

(** *** The guesses *)

Definition guess_and_set_url_base : M unit :=
  match CONFIGURATION env with
  | Some cfg =>
      match collection_url_base cfg with
      | VStr s => url_base_set (VStr s)
      | _ => url_base_set (VStr STD_URL_BASE)
      end
  | None =>
      match PYFUNCEBLE_COLLECTION_API_URL env with
      | Some s => url_base_set (get_value (Some s) VNone)
      | None => url_base_set (VStr STD_URL_BASE)
      end
  end.

Definition guess_and_set_is_modern_api : M unit :=
  c <- get_self ;;
  if truthy_opt_str (_token c)
  then
    try_except
      (response <- session_get
                     (format_opt_str (_url_base c) ++ "/v1/stats/subject")
                     (_timeout c) ;;
       raise_for_status response ;;;
       is_modern_api_set (VBool false))
      (is_modern_api_set (VBool true))
  else is_modern_api_set (VBool false).

Definition guess_and_set_preferred_status_origin : M unit :=
  match CONFIGURATION env with
  | Some cfg =>
      match collection_preferred_status_origin cfg with
      | VStr s => preferred_status_origin_set (VStr s)
      | _ => preferred_status_origin_set (VStr STD_PREFERRED_STATUS_ORIGIN)
      end
  | None => preferred_status_origin_set (VStr STD_PREFERRED_STATUS_ORIGIN)
  end.

Definition guess_and_set_timeout : M unit :=
  match CONFIGURATION env with
  | Some cfg => timeout_set (lookup_timeout cfg)
  | None => timeout_set STD_TIMEOUT
  end.

(** [__init__]; an argument left out is [VNone].  The session it creates is
    the [send] above. *)
Definition __init__ (token url_base preferred_status_origin timeout : value)
  : M unit :=
  match token with
  | VNone => token_set (get_value (PYFUNCEBLE_COLLECTION_API_TOKEN env) (VStr ""))
  | _ => token_set token
  end ;;;
  match url_base with
  | VNone => guess_and_set_url_base
  | _ => url_base_set url_base
  end ;;;
  match preferred_status_origin with
  | VNone => guess_and_set_preferred_status_origin
  | _ => preferred_status_origin_set preferred_status_origin
  end ;;;
  match timeout with
  | VNone => guess_and_set_timeout
  | _ => timeout_set timeout
  end.

(** The decorator. *)
Definition ensure_is_modern_api_is_set {A} (func : M A) : M A :=
  c <- get_self ;;
  match _is_modern_api c with
  | None => guess_and_set_is_modern_api
  | Some _ => ret tt
  end ;;;
  func.

(** *** Retrieval *)

(** The address [pull] posts to. *)
Definition pull_url (c : client) : string :=
  if truthy_opt_bool (_is_modern_api c)
  then
    if truthy_opt_str (_token c)
    then format_opt_str (_url_base c) ++ "/v1/aggregation/subject/search"
    else format_opt_str (_url_base c) ++ "/v1/hub/aggregation/subject/search"
  else format_opt_str (_url_base c) ++ "/v1/subject/search".

(** The body of a [try] block that either returns from the method ([Some])
    or falls through to the statements after it ([None]). *)
Definition returned_or_none (r : option value) : M value :=
  match r with
  | Some v => ret v
  | None => ret VNone
  end.

(** The body of [pull], under the decorator. *)
Definition pull_func (subject : value) : M value :=
  match subject with
  | VStr s =>
      c <- get_self ;;
      let url := pull_url c in
      r <- try_except
             (response <- session_post url
                            (JsonPayload (VDict [("subject", VStr s)]))
                            (_timeout c) ;;
              response_json <- response_json response ;;
              if resp_status_code response =? 200
              then ret (Some response_json)
              else ret None)
             (ret None) ;;
      returned_or_none r
  | _ => raise TypeError
  end.

Definition pull (subject : value) : M value :=
  ensure_is_modern_api_is_set (pull_func subject).

Definition __contains__ (v : value) : M bool :=
  r <- pull v ;;
  ret (match r with VNone => false | _ => true end).

Definition __getitem__ (v : value) : M value := pull v.

(** *** Submission *)

(** The address [__push_status] posts to. *)
Definition push_status_url (c : client) (checker_type : string) : string :=
  if truthy_opt_bool (_is_modern_api c)
  then
    if negb (truthy_opt_str (_token c))
    then format_opt_str (_url_base c) ++ "/v1/hub/status/" ++ checker_type
    else format_opt_str (_url_base c) ++ "/v1/contracts/self-delivery"
  else format_opt_str (_url_base c) ++ "/v1/status/" ++ checker_type.

(** How [__push_status] hands its data to [Session.post]. *)
Definition push_status_payload (data : value) : payload :=
  match data with
  | VDict _ => JsonPayload data
  | VStatus st => JsonPayload (VDict (to_dict st))
  | _ => DataPayload data
  end.

Definition __push_status (checker_type : string) (data : value) : M value :=
  c <- get_self ;;
  if negb (truthy_opt_str (_token c))
  then ret VNone
  else
    if negb (str_in checker_type SUPPORTED_CHECKERS)
    then raise ValueError
    else
      let url := push_status_url c checker_type in
      r <- try_except
             (response <- session_post url (push_status_payload data)
                            (_timeout c) ;;
              response_json <- response_json response ;;
              if resp_status_code response =? 200
              then ret (Some response_json)
              else ret None)
             (ret None) ;;
      returned_or_none r.

Definition whois_url (c : client) : string :=
  format_opt_str (_url_base c) ++ "/v1/status/whois".

Definition __push_whois (data : value) : M value :=
  c <- get_self ;;
  if negb (truthy_opt_str (_token c))
  then ret VNone
  else
    let data := match data with
                | VStatus st => VDict (to_dict st)
                | _ => data
                end in
    match data with
    | VDict _ =>
        let url := whois_url c in
        r <- try_except
               (response <- session_post url (JsonPayload data) (_timeout c) ;;
                response_json <- response_json response ;;
                if resp_status_code response =? 200
                then ret (Some response_json)
                else ret None)
               (ret None) ;;
        returned_or_none r
    | _ => raise TypeError
    end.

(** [hasattr(checker_status, "expiration_date") and
    checker_status.expiration_date]. *)
Definition has_expiration_date (st : checker_status) : bool :=
  match expiration_date st with
  | Some d => truthy d
  | None => false
  end.

(** The body of [push], under the decorator. *)
Definition push_func (checker_status : value) : M value :=
  match checker_status with
  | VStatus st =>
      match subject st with
      | VStr subj =>
          match checker_type st with
          | VStr ct =>
              if (subj =? "")%string
              then raise ValueError
              else
                c <- get_self ;;
                (if negb (truthy_opt_bool (_is_modern_api c))
                    && has_expiration_date st
                 then (_ <- __push_whois checker_status ;; ret tt)
                 else ret tt) ;;;
                __push_status (lower ct) (VStr (to_json st))
          | _ => raise TypeError
          end
      | _ => raise TypeError
      end
  | _ => raise TypeError
  end.

Definition push (checker_status : value) : M value :=
  ensure_is_modern_api_is_set (push_func checker_status).

(** *** A caller *)

(** The two operations that touch the network.  A caller that catches what
    an operation raises goes on with the same instance. *)
Inductive operation : Type :=
| Pull (subject : value)
| Push (checker_status : value).

Definition perform (o : operation) : M value :=
  match o with
  | Pull v => pull v
  | Push v => push v
  end.

Fixpoint perform_all (os : list operation) (w : world) : world :=
  match os with
  | [] => w
  | o :: os' => perform_all os' (after (perform o) w)
  end.

End CollectionQueryTool.

(** ** Notions used in the statements *)

(** The probe is the one request the class sends with GET. *)
Definition is_probe (r : request) : bool :=
  match req_method r with
  | GET => true
  | POST => false
  end.

Definition probes (l : list request) : nat :=
  List.length (filter is_probe l).

(** The API generation of an instance, in the words of the specification. *)
Inductive generation : Type := UNKNOWN | LEGACY | MODERN.

Definition api_generation (c : client) : generation :=
  match _is_modern_api c with
  | None => UNKNOWN
  | Some false => LEGACY
  | Some true => MODERN
  end.

(** No token is configured: the attribute is [None] or the empty string. *)
Definition no_token (c : client) : Prop := truthy_opt_str (_token c) = false.
Definition has_token (c : client) : Prop := truthy_opt_str (_token c) = true.

(** The instance with its generation resolved to [b]. *)
Definition resolved (b : bool) (c : client) : client :=
  {| _token := _token c;
     _url_base := _url_base c;
     _preferred_status_origin := _preferred_status_origin c;
     _is_modern_api := Some b;
     _timeout := _timeout c |}.

(** The request of the probe, and what an outcome that [settles] says: the
    generation is the modern one when the call raised or the status is an
    error status. *)
Definition probe_request (c : client) : request :=
  mk_request GET (format_opt_str (_url_base c) ++ "/v1/stats/subject")
    NoPayload (_timeout c).

Definition probe_says_modern (o : outcome) : bool :=
  match o with
  | Responded code _ => is_error_status code
  | Raised _ => true
  end.

(** The world in which a decorated method runs. *)
Definition ensured (net : service) (w : world) : world :=
  after (ensure_is_modern_api_is_set net (ret tt)) w.

(** The decorator ran its guess, if any, to the end. *)
Definition guessed (net : service) (w : world) : Prop :=
  outcome_of (ensure_is_modern_api_is_set net (ret tt)) w = Ok tt.

(** The request of [pull] for a subject. *)
Definition pull_request (c : client) (s : string) : request :=
  mk_request POST (pull_url c) (JsonPayload (VDict [("subject", VStr s)]))
    (_timeout c).

(** The request of the WHOIS submission of [push]. *)
Definition whois_request (c : client) (st : checker_status) : request :=
  mk_request POST (whois_url c) (JsonPayload (VDict (to_dict st)))
    (_timeout c).

Definition is_str (v : value) : bool :=
  match v with
  | VStr _ => true
  | _ => false
  end.

Definition is_status (v : value) : bool :=
  match v with
  | VStatus _ => true
  | _ => false
  end.

(** A computation that neither touches the generation nor the network. *)
Definition quiet {A} (m : M A) : Prop :=
  forall w,
    _is_modern_api (self (after m w)) = _is_modern_api (self w)
    /\ sent (after m w) = sent w.

(** What a computation leaves of the token. *)
Definition keeps_token {A} (m : M A) : Prop :=
  forall w, _token (self (after m w)) = _token (self w).

(** The value a method hands back for a [soft] outcome of its POST: the
    parsed body when the status is 200, and [None] otherwise. *)
Definition soft_result (o : outcome) : value :=
  match o with
  | Responded code (Ok j) => if code =? 200 then j else VNone
  | Responded _ (Raise _) => VNone
  | Raised _ => VNone
  end.

(** An exception the [except] clauses of the class catch. *)
Definition caught (e : exn) : bool :=
  match e with
  | NetError _ => true
  | _ => false
  end.

(** The call returns a response, or raises an exception that is caught. *)
Definition settles (o : outcome) : bool :=
  match o with
  | Responded _ _ => true
  | Raised e => caught e
  end.

(** The call and [response.json()] on its response raise nothing but
    exceptions that are caught. *)
Definition soft (o : outcome) : bool :=
  match o with
  | Responded _ (Ok _) => true
  | Responded _ (Raise e) => caught e
  | Raised e => caught e
  end.

(** What a method gives for the outcome of its POST: the parsed body for
    status 200, [None] for another status or a caught exception, and any
    other exception as it is. *)
Definition exchange_result (o : outcome) : result value :=
  match o with
  | Responded code (Ok j) => Ok (if code =? 200 then j else VNone)
  | Responded _ (Raise e) => if caught e then Ok VNone else Raise e
  | Raised e => if caught e then Ok VNone else Raise e
  end.

(** The outcome of a call raises nothing that leaves the method that makes
    the call: the probe itself, whose response is not parsed, raises nothing
    but exceptions that are caught; a POST is [soft]. *)
Definition harmless (r : request) (o : outcome) : bool :=
  if is_probe r then settles o else soft o.

(** Every call of the session made from the world [w] to the world [w'],
    each with the calls made before it, is [harmless]. *)
Definition calm (net : service) (w w' : world) : Prop :=
  forall l1 r l2,
    sent w' = (sent w ++ l1 ++ r :: l2)%list ->
    harmless r (net (sent w ++ l1)%list r) = true.

(** A computation that leaves the instance as it is and sends no GET. *)
Definition posts_only {A} (m : M A) : Prop :=
  forall w,
    self (after m w) = self w
    /\ probes (sent (after m w)) = probes (sent w).

(** The method under the decorator. *)
Definition undecorated (net : service) (o : operation) : M value :=
  match o with
  | Pull v => pull_func net v
  | Push v => push_func net v
  end.

(** ** Settings used in the examples *)

(** A service that gives the same outcome to every request. *)
Definition always (o : outcome) : service := fun _ _ => o.

(** No environment variable is set and no configuration is loaded. *)
Definition bare_environment : environment :=
  {| PYFUNCEBLE_COLLECTION_API_TOKEN := None;
     PYFUNCEBLE_COLLECTION_API_URL := None;
     CONFIGURATION := None |}.

(** The instance of the round-trip scenario: no token. *)
Definition anonymous_instance : world :=
  after (__init__ bare_environment (VStr "") (VStr "https://api.example.test")
           (VStr "latest") (VFloat (5 # 2)))
        (fresh class_defaults).

(** The same instance with a token. *)
Definition token_instance : world :=
  after (__init__ bare_environment (VStr "secret") (VStr "https://api.example.test")
           (VStr "latest") (VFloat (5 # 2)))
        (fresh class_defaults).

Definition found : outcome :=
  Responded 200 (Ok (VDict [("subject", VStr "test.tld")])).

(** A record of an availability check, with an expiration date. *)
Definition dated_status (ct : string) : checker_status :=
  {| status_cls := AvailabilityCheckerStatus;
     subject := VStr "example.org";
     checker_type := VStr ct;
     expiration_date := Some (VStr "01-jan-2030");
     to_json := "{}";
     to_dict := [("subject", VStr "example.org")] |}.

(** The instance without a token after the guess. *)
Definition legacy_anonymous_instance : world :=
  after (guess_and_set_is_modern_api (always found)) anonymous_instance.

(** The instance with a token after a probe that found the legacy service. *)
Definition legacy_token_instance : world :=
  after (guess_and_set_is_modern_api (always found)) token_instance.

(** ** The rest of the class *)

(** The chaining setters [set_token], [set_url_base], [set_is_modern_api],
    [set_timeout] and [set_preferred_status_origin]: each assigns through the
    property and returns the instance. *)
Definition set_token (v : value) : M unit := token_set v.
Definition set_url_base (v : value) : M unit := url_base_set v.
Definition set_is_modern_api (v : value) : M unit := is_modern_api_set v.
Definition set_timeout (v : value) : M unit := timeout_set v.
Definition set_preferred_status_origin (v : value) : M unit :=
  preferred_status_origin_set v.

(** [guess_all_settings]: every method whose name starts with [guess_],
    itself apart, is called in the order of [dir(self)], which is the
    alphabetical one. *)
Definition guess_all_settings (net : service) (env : environment) : M unit :=
  guess_and_set_is_modern_api net ;;;
  guess_and_set_preferred_status_origin env ;;;
  guess_and_set_timeout env ;;;
  guess_and_set_url_base env.

(** The five attributes a caller can assign. *)
Inductive attribute : Type :=
| Token
| UrlBase
| IsModernApi
| Timeout
| PreferredStatusOrigin.

Definition assign (a : attribute) (v : value) : M unit :=
  match a with
  | Token => set_token v
  | UrlBase => set_url_base v
  | IsModernApi => set_is_modern_api v
  | Timeout => set_timeout v
  | PreferredStatusOrigin => set_preferred_status_origin v
  end.

(** What a caller does with an instance between its construction and its
    end; a call that raises leaves the instance to the next call. *)
Inductive call : Type :=
| Assign (a : attribute) (v : value)
| Perform (o : operation)
| GuessAllSettings.

Definition do_call (net : service) (env : environment) (c : call) : M unit :=
  match c with
  | Assign a v => assign a v
  | Perform o => (_ <- perform net o ;; ret tt)
  | GuessAllSettings => guess_all_settings net env
  end.

Fixpoint do_calls (net : service) (env : environment) (cs : list call)
  (w : world) : world :=
  match cs with
  | [] => w
  | c :: cs' => do_calls net env cs' (after (do_call net env c) w)
  end.

(** [isinstance(v, (int, float))] and [isinstance(v, bool)]. *)
Definition is_number (v : value) : bool :=
  match v with
  | VBool _ | VInt _ | VFloat _ => true
  | _ => false
  end.

Definition is_bool (v : value) : bool :=
  match v with
  | VBool _ => true
  | _ => false
  end.

(** The type each attribute asks of an assigned value. *)
Definition well_typed (a : attribute) (v : value) : bool :=
  match a with
  | Token | UrlBase | PreferredStatusOrigin => is_str v
  | IsModernApi => is_bool v
  | Timeout => is_number v
  end.

(** The values of the right type an attribute accepts. *)
Definition in_domain (a : attribute) (v : value) : bool :=
  match a, v with
  | UrlBase, VStr s => startswith s "http"
  | PreferredStatusOrigin, VStr s => str_in s SUPPORTED_STATUS_ORIGIN
  | _, _ => true
  end.

(** The instance after an accepted assignment. *)
Definition put (a : attribute) (v : value) (c : client) : client :=
  match a, v with
  | Token, VStr s =>
      {| _token := Some s; _url_base := _url_base c;
         _preferred_status_origin := _preferred_status_origin c;
         _is_modern_api := _is_modern_api c; _timeout := _timeout c |}
  | UrlBase, VStr s =>
      {| _token := _token c; _url_base := Some (rstrip_slash s);
         _preferred_status_origin := _preferred_status_origin c;
         _is_modern_api := _is_modern_api c; _timeout := _timeout c |}
  | PreferredStatusOrigin, VStr s =>
      {| _token := _token c; _url_base := _url_base c;
         _preferred_status_origin := Some s;
         _is_modern_api := _is_modern_api c; _timeout := _timeout c |}
  | IsModernApi, VBool b =>
      {| _token := _token c; _url_base := _url_base c;
         _preferred_status_origin := _preferred_status_origin c;
         _is_modern_api := Some b; _timeout := _timeout c |}
  | Timeout, _ =>
      {| _token := _token c; _url_base := _url_base c;
         _preferred_status_origin := _preferred_status_origin c;
         _is_modern_api := _is_modern_api c; _timeout := v |}
  | _, _ => c
  end.

(** What the property of an attribute reads, as a value. *)
Definition of_opt_str (o : option string) : value :=
  match o with
  | Some s => VStr s
  | None => VNone
  end.

Definition read (a : attribute) : M value :=
  match a with
  | Token => (o <- token ;; ret (of_opt_str o))
  | UrlBase => (o <- url_base ;; ret (of_opt_str o))
  | IsModernApi =>
      (o <- is_modern_api ;;
       ret (match o with Some b => VBool b | None => VNone end))
  | Timeout => timeout
  | PreferredStatusOrigin => (o <- preferred_status_origin ;; ret (of_opt_str o))
  end.

(** The settings of an instance are sound: the URL base, when set, begins
    with [http] and has no trailing ['/']; the preferred status origin, when
    set, is a supported one; the timeout is a number. *)
Definition valid_settings (c : client) : bool :=
  match _url_base c with
  | Some u => startswith u "http" && negb (ends_with_slash u)
  | None => true
  end
  && match _preferred_status_origin c with
     | Some o => str_in o SUPPORTED_STATUS_ORIGIN
     | None => true
     end
  && is_number (_timeout c).

(** The URL base is set. *)
Definition configured (c : client) : bool :=
  match _url_base c with
  | Some u => startswith u "http"
  | None => false
  end.

Definition http_url (r : request) : bool := startswith (req_url r) "http".

(** A loaded configuration whose URL base is not a string, and an
    environment variable that is then ignored. *)
Definition odd_environment : environment :=
  {| PYFUNCEBLE_COLLECTION_API_TOKEN := Some "from-env";
     PYFUNCEBLE_COLLECTION_API_URL := Some "https://ignored.example";
     CONFIGURATION :=
       Some {| collection_url_base := VNone;
               collection_preferred_status_origin := VStr "recommended";
               lookup_timeout := VInt 3 |} |}.

(** ** Further notions used in the statements *)

(** A computation that, run on the instance [c], leaves it as it is and
    sends requests to addresses beginning with [http] only. *)
Definition http_only_at {A} (c : client) (m : M A) : Prop :=
  forall w, self w = c ->
    self (after m w) = c
    /\ exists l, sent (after m w) = (sent w ++ l)%list
                 /\ forallb http_url l = true.

(** A computation that raises no network exception. *)
Definition no_net_error {A} (m : M A) : Prop :=
  forall w e, outcome_of m w <> Raise (NetError e).

(** The value each guess assigns. *)
Definition guessed_token (env : environment) : value :=
  get_value (PYFUNCEBLE_COLLECTION_API_TOKEN env) (VStr "").

Definition guessed_url_base (env : environment) : value :=
  match CONFIGURATION env with
  | Some cfg =>
      match collection_url_base cfg with
      | VStr s => VStr s
      | _ => VStr STD_URL_BASE
      end
  | None => get_value (PYFUNCEBLE_COLLECTION_API_URL env) (VStr STD_URL_BASE)
  end.

Definition guessed_preferred_status_origin (env : environment) : value :=
  match CONFIGURATION env with
  | Some cfg =>
      match collection_preferred_status_origin cfg with
      | VStr s => VStr s
      | _ => VStr STD_PREFERRED_STATUS_ORIGIN
      end
  | None => VStr STD_PREFERRED_STATUS_ORIGIN
  end.

Definition guessed_timeout (env : environment) : value :=
  match CONFIGURATION env with
  | Some cfg => lookup_timeout cfg
  | None => STD_TIMEOUT
  end.

(** The value [__init__] assigns for an argument: the argument when it is
    given, the guessed value when it is [None]. *)
Definition effective (arg guessed : value) : value :=
  match arg with
  | VNone => guessed
  | _ => arg
  end.

(** ** The initial migration of the database

    [PyFunceble/data/alembic/postgresql/versions/a32ac5d66eee_initial_version.py].
    A database is the list of its tables; [op.create_table] and
    [op.drop_table] are the statements of the database: a table is not
    created under a name that is taken, and a table that does not exist is
    not dropped.  A migration runs in one transaction: it gives the new
    database, or fails and gives none. *)

Module Migration.

Inductive column_type : Type :=
| BigInteger
| DateTime
| Text
| String_ (length : nat)
| Integer.

Record column : Type := Column {
  column_name : string;
  type_ : column_type;
  nullable : bool
}.

Inductive table_constraint : Type :=
| PrimaryKeyConstraint (columns : list string)
| UniqueConstraint (columns : list string).

Record table : Type := Table {
  table_name : string;
  table_columns : list column;
  table_constraints : list table_constraint
}.

Definition database : Type := list table.

Definition has_table (name : string) (db : database) : bool :=
  existsb (fun t => (table_name t =? name)%string) db.

Definition create_table (name : string) (columns : list column)
  (constraints : list table_constraint) (db : database) : option database :=
  if has_table name db
  then None
  else Some (db ++ [Table name columns constraints])%list.

Definition drop_table (name : string) (db : database) : option database :=
  if has_table name db
  then Some (filter (fun t => negb (table_name t =? name)%string) db)
  else None.

Definition and_then (r : option database)
  (k : database -> option database) : option database :=
  match r with
  | Some db => k db
  | None => None
  end.

Definition revision : string := "a32ac5d66eee".
Definition down_revision : option string := None.

Definition upgrade (db : database) : option database :=
  and_then
    (create_table "pyfunceble_continue"
       [Column "id" BigInteger false;
        Column "created_at" DateTime false;
        Column "modified_at" DateTime true;
        Column "idna_subject" Text false;
        Column "checker_type" (String_ 50) false;
        Column "destination" Text false;
        Column "source" Text false;
        Column "tested_at" DateTime false;
        Column "session_id" Text true]
       [PrimaryKeyConstraint ["id"]] db)
    (fun db =>
  and_then
    (create_table "pyfunceble_inactive"
       [Column "id" BigInteger false;
        Column "created_at" DateTime false;
        Column "modified_at" DateTime true;
        Column "idna_subject" Text false;
        Column "checker_type" (String_ 50) false;
        Column "destination" Text false;
        Column "tested_at" DateTime false]
       [PrimaryKeyConstraint ["id"]] db)
    (fun db =>
    create_table "pyfunceble_whois_record"
       [Column "id" BigInteger false;
        Column "created_at" DateTime false;
        Column "modified_at" DateTime true;
        Column "subject" Text false;
        Column "idna_subject" Text true;
        Column "expiration_date" Text false;
        Column "epoch" Integer false;
        Column "registrar" Text true]
       [PrimaryKeyConstraint ["id"]; UniqueConstraint ["subject"]] db)).

Definition downgrade (db : database) : option database :=
  and_then (drop_table "pyfunceble_whois_record" db) (fun db =>
  and_then (drop_table "pyfunceble_inactive" db) (fun db =>
  drop_table "pyfunceble_continue" db)).

(** None of the three tables of the migration is in the database. *)
Definition clean (db : database) : bool :=
  negb (has_table "pyfunceble_continue" db)
  && negb (has_table "pyfunceble_inactive" db)
  && negb (has_table "pyfunceble_whois_record" db).

(** A database with one table of its own. *)
Definition other_database : database :=
  [Table "alembic_version" [Column "version_num" (String_ 32) false]
     [PrimaryKeyConstraint ["version_num"]]].

End Migration.

(** ** A session that refuses what the library refuses

    The requests library raises a [TypeError] for a [json] payload that
    [json.dumps] cannot serialize, and a [ValueError] for a timeout that is a
    [bool] or is not positive.  [strict net] is the session [net] with these
    two refusals in front of it. *)

Fixpoint json_serializable (v : value) : bool :=
  match v with
  | VNone | VBool _ | VInt _ | VFloat _ | VStr _ => true
  | VList l => forallb json_serializable l
  | VDict d =>
      forallb (fun kv => match kv with (_, x) => json_serializable x end) d
  | VStatus _ => false
  | VObject _ _ => false
  end.

Definition accepted_timeout (v : value) : bool :=
  match v with
  | VNone => true
  | VInt z => 0 <? z
  | VFloat q => negb (Qle_bool q 0)
  | _ => false
  end.

Definition refused (r : request) : option exn :=
  match req_payload r with
  | JsonPayload v =>
      if json_serializable v
      then if accepted_timeout (req_timeout r) then None else Some ValueError
      else Some TypeError
  | _ => if accepted_timeout (req_timeout r) then None else Some ValueError
  end.

Definition strict (net : service) : service :=
  fun l r =>
    match refused r with
    | Some e => Raised e
    | None => net l r
    end.

(** A record whose [to_dict()] holds a [datetime]. *)
Definition timed_status : checker_status :=
  {| status_cls := AvailabilityCheckerStatus;
     subject := VStr "example.org";
     checker_type := VStr "AVAILABILITY";
     expiration_date := Some (VStr "01-jan-2030");
     to_json := "{}";
     to_dict := [("subject", VStr "example.org");
                 ("tested_at", VObject "datetime" true)] |}.

(** The instance with a token and the timeout 0. *)
Definition hasty_instance : world :=
  after (set_timeout (VInt 0)) token_instance.

(** * Properties *)

(** ** Strings *)

Lemma prefix_cons (a b : ascii) (p s : string) :
  String.prefix (String a p) (String b s)
  = (Ascii.eqb a b && String.prefix p s)%bool.
Proof.
  cbn [String.prefix].
  destruct (ascii_dec a b) as [->|Hne].
  - rewrite Ascii.eqb_refl. reflexivity.
  - apply Ascii.eqb_neq in Hne. rewrite Hne. reflexivity.
Qed.

Lemma prefix_nil_r (a : ascii) (p : string) :
  String.prefix (String a p) EmptyString = false.
Proof. reflexivity. Qed.

Lemma prefix_nil_l (s : string) : String.prefix EmptyString s = true.
Proof. destruct s; reflexivity. Qed.

(** A string begins with [http] exactly when its first four characters are
    these. *)
Lemma startswith_http_inv (s : string) :
  startswith s "http" = true ->
  exists r, s = String "h" (String "t" (String "t" (String "p" r))).
Proof.
  unfold startswith. intros H.
  destruct s as [|a [|b [|c [|d r]]]];
    repeat (rewrite ?prefix_cons, ?prefix_nil_r, ?andb_false_r in H);
    try discriminate.
  rewrite prefix_nil_l, andb_true_r in H.
  repeat (apply andb_prop in H; destruct H as [? H]).
  repeat match goal with
         | E : Ascii.eqb _ _ = true |- _ => apply Ascii.eqb_eq in E; subst
         end.
  eexists. reflexivity.
Qed.

Lemma startswith_https_http (s : string) :
  startswith s "https" = true -> startswith s "http" = true.
Proof.
  unfold startswith. intros H.
  destruct s as [|a [|b [|c [|d r]]]];
    repeat (rewrite ?prefix_cons, ?prefix_nil_r, ?andb_false_r in H);
    try discriminate.
  repeat (apply andb_prop in H; destruct H as [? H]).
  rewrite !prefix_cons, prefix_nil_l.
  repeat match goal with
         | E : Ascii.eqb _ _ = true |- _ => rewrite E; clear E
         end.
  reflexivity.
Qed.

Lemma startswith_any_http (s : string) :
  startswith_any s ["http"; "https"] = startswith s "http".
Proof.
  unfold startswith_any; simpl.
  rewrite orb_false_r.
  destruct (startswith s "http") eqn:H1; [reflexivity|].
  destruct (startswith s "https") eqn:H2; [|reflexivity].
  apply startswith_https_http in H2. congruence.
Qed.

Lemma rstrip_slash_decompose (s : string) :
  exists n, s = rstrip_slash s ++ slashes n.
Proof.
  induction s as [|c r [n IH]].
  - exists O. reflexivity.
  - simpl. destruct (rstrip_slash r) as [|c' r'] eqn:E.
    + destruct (is_slash c) eqn:Hc.
      * exists (S n). simpl in *.
        unfold is_slash in Hc. apply Ascii.eqb_eq in Hc. subst c.
        rewrite IH at 1. reflexivity.
      * exists n. simpl in *. rewrite IH at 1. reflexivity.
    + exists n. simpl in *. rewrite IH at 1. reflexivity.
Qed.

Lemma rstrip_slash_no_trailing (s : string) :
  ends_with_slash (rstrip_slash s) = false.
Proof.
  induction s as [|c r IH]; [reflexivity|].
  simpl. destruct (rstrip_slash r) as [|c' r'] eqn:E.
  - destruct (is_slash c) eqn:Hc; simpl; [reflexivity|exact Hc].
  - exact IH.
Qed.

Lemma rstrip_slash_fixed (s : string) :
  ends_with_slash s = false -> rstrip_slash s = s.
Proof.
  induction s as [|c r IH]; [reflexivity|].
  intros H. simpl in *.
  destruct r as [|c' r'].
  - simpl. rewrite H. reflexivity.
  - rewrite (IH H). reflexivity.
Qed.

Lemma rstrip_slash_idempotent (s : string) :
  rstrip_slash (rstrip_slash s) = rstrip_slash s.
Proof. apply rstrip_slash_fixed, rstrip_slash_no_trailing. Qed.

Lemma rstrip_slash_keeps_http (s : string) :
  startswith s "http" = true -> startswith (rstrip_slash s) "http" = true.
Proof.
  intros H. destruct (startswith_http_inv s H) as [r ->].
  cbn [rstrip_slash].
  destruct (rstrip_slash r); reflexivity.
Qed.

(** ** The probe and the decorator *)

Ltac unfold_methods :=
  unfold run, outcome_of, after, ensured, ensure_is_modern_api_is_set,
    guess_and_set_is_modern_api, is_modern_api_set, session_get, session_post,
    send, raise_for_status, response_json, returned_or_none, try_except,
    modify_self, get_self, bind, ret, raise in *.

Lemma probes_app (l l' : list request) :
  probes (l ++ l') = (probes l + probes l')%nat.
Proof. unfold probes. rewrite filter_app, length_app. reflexivity. Qed.

Lemma probes_post (l : list request) u p t :
  probes (l ++ [mk_request POST u p t]) = probes l.
Proof. rewrite probes_app. unfold probes. simpl. lia. Qed.

Lemma probes_probe (l : list request) (c : client) :
  probes (l ++ [probe_request c]) = S (probes l).
Proof. rewrite probes_app. unfold probes. simpl. lia. Qed.

Section Probe.

Variable net : service.

Lemma guess_no_token (w : world) :
  no_token (self w) ->
  run (guess_and_set_is_modern_api net) w
  = (Ok tt, {| self := resolved false (self w); sent := sent w |}).
Proof.
  unfold no_token. intros H. unfold_methods. rewrite H. reflexivity.
Qed.

Lemma guess_with_token (w : world) :
  has_token (self w) ->
  settles (net (sent w) (probe_request (self w))) = true ->
  run (guess_and_set_is_modern_api net) w
  = (Ok tt,
     {| self := resolved
                  (probe_says_modern (net (sent w) (probe_request (self w))))
                  (self w);
        sent := sent w ++ [probe_request (self w)] |}).
Proof.
  unfold has_token. intros H. unfold_methods. rewrite H.
  unfold probe_request, probe_says_modern, settles.
  destruct (net _ _) as [code body|e]; simpl.
  - intros _. destruct (is_error_status code); reflexivity.
  - destruct e; try discriminate; reflexivity.
Qed.

(** An exception of another class raised by the probe leaves the guess, and
    the generation is left as it was. *)
Lemma guess_crashes (w : world) (e : exn) :
  has_token (self w) ->
  net (sent w) (probe_request (self w)) = Raised e -> caught e = false ->
  run (guess_and_set_is_modern_api net) w
  = (Raise e, {| self := self w; sent := sent w ++ [probe_request (self w)] |}).
Proof.
  unfold has_token, probe_request. intros H Ho He. unfold_methods.
  rewrite H, Ho. destruct e; try discriminate; reflexivity.
Qed.

(** What the guess does, in every case. *)
Lemma guess_cases (w : world) :
  (no_token (self w)
   /\ run (guess_and_set_is_modern_api net) w
      = (Ok tt, {| self := resolved false (self w); sent := sent w |}))
  \/ (has_token (self w)
      /\ settles (net (sent w) (probe_request (self w))) = true
      /\ run (guess_and_set_is_modern_api net) w
         = (Ok tt,
            {| self := resolved
                         (probe_says_modern
                            (net (sent w) (probe_request (self w))))
                         (self w);
               sent := sent w ++ [probe_request (self w)] |}))
  \/ (exists e,
        has_token (self w)
        /\ net (sent w) (probe_request (self w)) = Raised e
        /\ caught e = false
        /\ run (guess_and_set_is_modern_api net) w
           = (Raise e,
              {| self := self w; sent := sent w ++ [probe_request (self w)] |})).
Proof.
  destruct (truthy_opt_str (_token (self w))) eqn:Ht.
  - destruct (settles (net (sent w) (probe_request (self w)))) eqn:Hs.
    + right. left. repeat split; try assumption.
      apply guess_with_token; assumption.
    + right. right.
      destruct (net (sent w) (probe_request (self w))) as [code body|e] eqn:Ho;
        [discriminate|].
      exists e. repeat split; try assumption.
      apply guess_crashes; assumption.
  - left. split; [exact Ht|]. apply guess_no_token, Ht.
Qed.

(** The guess raises nothing that is caught. *)
Lemma guess_raises_uncaught (w : world) (e : exn) :
  outcome_of (guess_and_set_is_modern_api net) w = Raise e -> caught e = false.
Proof.
  unfold outcome_of.
  change (guess_and_set_is_modern_api net w)
    with (run (guess_and_set_is_modern_api net) w).
  destruct (guess_cases w) as [[_ ->]|[(_ & _ & ->)|(e' & _ & _ & He & ->)]];
    cbn [fst]; try discriminate.
  intros H. injection H as <-. exact He.
Qed.

Lemma ensure_unknown {A} (func : M A) (w : world) :
  _is_modern_api (self w) = None ->
  run (ensure_is_modern_api_is_set net func) w
  = run (guess_and_set_is_modern_api net ;;; func) w.
Proof.
  intros H. unfold run, ensure_is_modern_api_is_set, bind, get_self, ret.
  cbv beta. rewrite H. reflexivity.
Qed.

Lemma ensure_resolved {A} (func : M A) (w : world) (b : bool) :
  _is_modern_api (self w) = Some b ->
  run (ensure_is_modern_api_is_set net func) w = run func w.
Proof.
  intros H. unfold run, ensure_is_modern_api_is_set, bind, get_self, ret.
  cbv beta. rewrite H. reflexivity.
Qed.

Lemma ensured_resolved (w : world) (b : bool) :
  _is_modern_api (self w) = Some b -> ensured net w = w.
Proof.
  intros H. unfold ensured, after, ensure_is_modern_api_is_set, bind, get_self, ret.
  rewrite H. reflexivity.
Qed.

Lemma ensured_unknown (w : world) :
  _is_modern_api (self w) = None ->
  ensured net w = after (guess_and_set_is_modern_api net) w.
Proof.
  intros H.
  unfold ensured, after, ensure_is_modern_api_is_set, bind, get_self, ret.
  cbv beta. rewrite H.
  destruct (guess_and_set_is_modern_api net w) as [[[]|e] w']; reflexivity.
Qed.

Lemma guessed_unknown (w : world) :
  _is_modern_api (self w) = None ->
  (guessed net w <-> outcome_of (guess_and_set_is_modern_api net) w = Ok tt).
Proof.
  intros H.
  unfold guessed, outcome_of, ensure_is_modern_api_is_set, bind, get_self, ret.
  cbv beta. rewrite H.
  destruct (guess_and_set_is_modern_api net w) as [[[]|e] w']; cbn [fst];
    split; intros; try reflexivity; discriminate.
Qed.

Lemma guessed_if_resolved (w : world) (b : bool) :
  _is_modern_api (self w) = Some b -> guessed net w.
Proof.
  intros H.
  unfold guessed, outcome_of, ensure_is_modern_api_is_set, bind, get_self, ret.
  cbv beta. rewrite H. reflexivity.
Qed.

Lemma guessed_if_no_token (w : world) : no_token (self w) -> guessed net w.
Proof.
  intros Ht. destruct (_is_modern_api (self w)) as [b|] eqn:H.
  - apply (guessed_if_resolved w b H).
  - apply guessed_unknown; [exact H|]. unfold outcome_of.
    change (guess_and_set_is_modern_api net w)
      with (run (guess_and_set_is_modern_api net) w).
    rewrite guess_no_token by exact Ht. reflexivity.
Qed.

Lemma guessed_if_settles (w : world) :
  settles (net (sent w) (probe_request (self w))) = true -> guessed net w.
Proof.
  intros Hs. destruct (_is_modern_api (self w)) as [b|] eqn:H.
  - apply (guessed_if_resolved w b H).
  - apply guessed_unknown; [exact H|]. unfold outcome_of.
    change (guess_and_set_is_modern_api net w)
      with (run (guess_and_set_is_modern_api net) w).
    destruct (truthy_opt_str (_token (self w))) eqn:Ht.
    + rewrite guess_with_token by assumption. reflexivity.
    + rewrite guess_no_token by exact Ht. reflexivity.
Qed.

(** A decorated method runs its body in the [ensured] world, when the guess
    returned; the exception of the guess leaves the method otherwise. *)
Lemma ensure_run {A} (func : M A) (w : world) :
  guessed net w ->
  run (ensure_is_modern_api_is_set net func) w = run func (ensured net w).
Proof.
  unfold guessed, outcome_of, ensured, after, run, ensure_is_modern_api_is_set,
    bind, get_self, ret.
  cbv beta.
  destruct (_is_modern_api (self w)) as [b|].
  - reflexivity.
  - destruct (guess_and_set_is_modern_api net w) as [[[]|e] w']; cbn [fst snd];
      [reflexivity|discriminate].
Qed.

Lemma ensure_raises {A} (func : M A) (w : world) (e : exn) :
  outcome_of (ensure_is_modern_api_is_set net (ret tt)) w = Raise e ->
  run (ensure_is_modern_api_is_set net func) w = (Raise e, ensured net w).
Proof.
  unfold outcome_of, ensured, after, run, ensure_is_modern_api_is_set,
    bind, get_self, ret.
  cbv beta.
  destruct (_is_modern_api (self w)) as [b|].
  - discriminate.
  - destruct (guess_and_set_is_modern_api net w) as [[[]|e'] w']; cbn [fst snd];
      [discriminate|].
    intros H. injection H as ->. reflexivity.
Qed.

(** The decorator raises nothing that is caught. *)
Lemma ensure_raises_uncaught (w : world) (e : exn) :
  outcome_of (ensure_is_modern_api_is_set net (ret tt)) w = Raise e ->
  caught e = false.
Proof.
  destruct (_is_modern_api (self w)) as [b|] eqn:H; intros E.
  - pose proof (guessed_if_resolved w b H) as G. unfold guessed in G.
    congruence.
  - apply (guess_raises_uncaught w). unfold outcome_of in *.
    change (ensure_is_modern_api_is_set net (ret tt) w)
      with (run (ensure_is_modern_api_is_set net (ret tt)) w) in E.
    rewrite (ensure_unknown (ret tt) w H) in E. unfold run, bind, ret in E.
    destruct (guess_and_set_is_modern_api net w) as [[[]|e'] w']; cbn [fst] in *;
      congruence.
Qed.

Lemma ensured_unknown_no_token (w : world) :
  _is_modern_api (self w) = None -> no_token (self w) ->
  ensured net w = {| self := resolved false (self w); sent := sent w |}.
Proof.
  intros H Ht. rewrite ensured_unknown by exact H.
  unfold after. change (guess_and_set_is_modern_api net w)
    with (run (guess_and_set_is_modern_api net) w).
  rewrite guess_no_token by exact Ht. reflexivity.
Qed.


Lemma ensured_unknown_crashes (w : world) (e : exn) :
  _is_modern_api (self w) = None -> has_token (self w) ->
  net (sent w) (probe_request (self w)) = Raised e -> caught e = false ->
  ensured net w
  = {| self := self w; sent := sent w ++ [probe_request (self w)] |}.
Proof.
  intros H Ht Ho He. rewrite ensured_unknown by exact H.
  unfold after. change (guess_and_set_is_modern_api net w)
    with (run (guess_and_set_is_modern_api net) w).
  rewrite (guess_crashes w e) by assumption. reflexivity.
Qed.

(** The guess changes the generation at most, and sends nothing or the
    probe. *)
Lemma guess_effect (w : world) :
  (self (after (guess_and_set_is_modern_api net) w) = self w
   \/ exists b,
        self (after (guess_and_set_is_modern_api net) w) = resolved b (self w))
  /\ (sent (after (guess_and_set_is_modern_api net) w) = sent w
      \/ sent (after (guess_and_set_is_modern_api net) w)
         = (sent w ++ [probe_request (self w)])%list).
Proof.
  unfold after.
  change (guess_and_set_is_modern_api net w)
    with (run (guess_and_set_is_modern_api net) w).
  destruct (guess_cases w) as [[_ ->]|[(_ & _ & ->)|(e & _ & _ & _ & ->)]];
    cbn [snd self sent]; eauto.
Qed.

(** What the decorator leaves alone. *)
Lemma ensured_spec (w : world) :
  _token (self (ensured net w)) = _token (self w)
  /\ _url_base (self (ensured net w)) = _url_base (self w)
  /\ _timeout (self (ensured net w)) = _timeout (self w)
  /\ (probes (sent w) <= probes (sent (ensured net w)) <= S (probes (sent w)))%nat.
Proof.
  destruct (_is_modern_api (self w)) as [b|] eqn:H.
  - rewrite (ensured_resolved w b H). repeat split; lia.
  - rewrite (ensured_unknown w H).
    destruct (guess_effect w) as [[->|[b ->]] [->| ->]];
      cbn [resolved _token _url_base _timeout];
      rewrite ?probes_probe; repeat split; lia.
Qed.

(** What the decorator establishes when its guess returned. *)
Lemma ensured_resolves (w : world) :
  guessed net w -> _is_modern_api (self (ensured net w)) <> None.
Proof.
  intros Hg. destruct (_is_modern_api (self w)) as [b|] eqn:H.
  - rewrite (ensured_resolved w b H). congruence.
  - rewrite (ensured_unknown w H). apply (guessed_unknown w H) in Hg.
    unfold outcome_of in Hg. unfold after.
    change (guess_and_set_is_modern_api net w)
      with (run (guess_and_set_is_modern_api net) w) in *.
    destruct (guess_cases w) as [[_ E]|[(_ & _ & E)|(e & _ & _ & _ & E)]];
      rewrite E in *; cbn [fst snd self resolved _is_modern_api] in *;
      congruence.
Qed.

End Probe.

(** ** Construction *)

Lemma quiet_bind {A B} (m : M A) (k : A -> M B) :
  quiet m -> (forall a, quiet (k a)) -> quiet (bind m k).
Proof.
  intros Hm Hk w. specialize (Hm w). unfold after, bind in *.
  destruct (m w) as [[a|e] w1]; simpl in Hm.
  - destruct (Hk a w1) as [H1 H2]. unfold after in *.
    destruct Hm as [H3 H4]. rewrite H1, H2. auto.
  - exact Hm.
Qed.

Lemma quiet_raise {A} (e : exn) : quiet (@raise A e).
Proof. intros w. split; reflexivity. Qed.

Lemma quiet_token_set (v : value) : quiet (token_set v).
Proof. intros w. destruct v; split; reflexivity. Qed.

Lemma quiet_url_base_set (v : value) : quiet (url_base_set v).
Proof.
  intros w. destruct v; try (split; reflexivity).
  unfold url_base_set, after.
  destruct (negb _); split; reflexivity.
Qed.

Lemma quiet_preferred_status_origin_set (v : value) :
  quiet (preferred_status_origin_set v).
Proof.
  intros w. destruct v; try (split; reflexivity).
  unfold preferred_status_origin_set, after.
  destruct (negb _); split; reflexivity.
Qed.

Lemma quiet_timeout_set (v : value) : quiet (timeout_set v).
Proof. intros w. destruct v; split; reflexivity. Qed.

Lemma quiet_init (env : environment) (tok url origin tmo : value) :
  quiet (__init__ env tok url origin tmo).
Proof.
  unfold __init__.
  apply quiet_bind; [destruct tok; apply quiet_token_set|intros _].
  apply quiet_bind.
  { unfold guess_and_set_url_base.
    destruct url; try apply quiet_url_base_set.
    destruct (CONFIGURATION env) as [cfg|].
    - destruct (collection_url_base cfg); apply quiet_url_base_set.
    - destruct (PYFUNCEBLE_COLLECTION_API_URL env); apply quiet_url_base_set. }
  intros _. apply quiet_bind.
  { unfold guess_and_set_preferred_status_origin.
    destruct origin; try apply quiet_preferred_status_origin_set.
    destruct (CONFIGURATION env) as [cfg|].
    - destruct (collection_preferred_status_origin cfg);
        apply quiet_preferred_status_origin_set.
    - apply quiet_preferred_status_origin_set. }
  intros _. unfold guess_and_set_timeout.
  destruct tmo; try apply quiet_timeout_set.
  destruct (CONFIGURATION env); apply quiet_timeout_set.
Qed.

(** A new instance has not resolved its generation and has sent nothing. *)
Lemma init_unknown (env : environment) (tok url origin tmo : value) (w : world) :
  after (__init__ env tok url origin tmo) (fresh class_defaults) = w ->
  _is_modern_api (self w) = None /\ sent w = [].
Proof.
  intros <-.
  destruct (quiet_init env tok url origin tmo (fresh class_defaults)) as [H1 H2].
  rewrite H1, H2. split; reflexivity.
Qed.

Lemma keeps_token_bind {A B} (m : M A) (k : A -> M B) :
  keeps_token m -> (forall a, keeps_token (k a)) -> keeps_token (bind m k).
Proof.
  intros Hm Hk w. specialize (Hm w). unfold after, bind in *.
  destruct (m w) as [[a|e] w1]; simpl in Hm.
  - specialize (Hk a w1). unfold after in Hk. congruence.
  - exact Hm.
Qed.

Lemma keeps_token_url_base_set (v : value) : keeps_token (url_base_set v).
Proof.
  intros w. destruct v; try reflexivity.
  unfold url_base_set, after. destruct (negb _); reflexivity.
Qed.

Lemma keeps_token_preferred_status_origin_set (v : value) :
  keeps_token (preferred_status_origin_set v).
Proof.
  intros w. destruct v; try reflexivity.
  unfold preferred_status_origin_set, after. destruct (negb _); reflexivity.
Qed.

Lemma keeps_token_timeout_set (v : value) : keeps_token (timeout_set v).
Proof. intros w. destruct v; reflexivity. Qed.

(** The token of a new instance: the argument when one is given, else the
    environment variable, else the empty string. *)
Lemma init_token (env : environment) (tok url origin tmo : value) (w : world) :
  run (__init__ env tok url origin tmo) (fresh class_defaults) = (Ok tt, w) ->
  match tok with
  | VNone =>
      _token (self w)
      = Some (match PYFUNCEBLE_COLLECTION_API_TOKEN env with
              | Some s => s
              | None => ""
              end)
  | VStr s => _token (self w) = Some s
  | _ => False
  end.
Proof.
  intros H.
  assert (Hrest : forall w0 : world,
             _token (self (after
               (match url with
                | VNone => guess_and_set_url_base env
                | _ => url_base_set url
                end ;;;
                match origin with
                | VNone => guess_and_set_preferred_status_origin env
                | _ => preferred_status_origin_set origin
                end ;;;
                match tmo with
                | VNone => guess_and_set_timeout env
                | _ => timeout_set tmo
                end) w0))
             = _token (self w0)).
  { apply keeps_token_bind.
    { unfold guess_and_set_url_base.
      destruct url; try apply keeps_token_url_base_set.
      destruct (CONFIGURATION env) as [cfg|].
      - destruct (collection_url_base cfg); apply keeps_token_url_base_set.
      - destruct (PYFUNCEBLE_COLLECTION_API_URL env);
          apply keeps_token_url_base_set. }
    intros _. apply keeps_token_bind.
    { unfold guess_and_set_preferred_status_origin.
      destruct origin; try apply keeps_token_preferred_status_origin_set.
      destruct (CONFIGURATION env) as [cfg|].
      - destruct (collection_preferred_status_origin cfg);
          apply keeps_token_preferred_status_origin_set.
      - apply keeps_token_preferred_status_origin_set. }
    intros _. unfold guess_and_set_timeout.
    destruct tmo; try apply keeps_token_timeout_set.
    destruct (CONFIGURATION env); apply keeps_token_timeout_set. }
  unfold __init__, run in H. unfold bind at 1 in H.
  destruct tok; try (simpl in H; discriminate).
  - unfold get_value in H.
    destruct (PYFUNCEBLE_COLLECTION_API_TOKEN env) as [t|];
      cbn [token_set modify_self] in H;
      match type of H with
      | ?m ?w0 = _ =>
          specialize (Hrest w0); unfold after in Hrest; rewrite H in Hrest;
          exact Hrest
      end.
  - cbn [token_set modify_self] in H.
    match type of H with
    | ?m ?w0 = _ =>
        specialize (Hrest w0); unfold after in Hrest; rewrite H in Hrest;
        exact Hrest
    end.
Qed.

(** ** Retrieval *)

Lemma exchange_soft (o : outcome) :
  soft o = true -> exchange_result o = Ok (soft_result o).
Proof.
  destruct o as [code [j|e]|e]; cbn [soft exchange_result soft_result];
    intros H; rewrite ?H; reflexivity.
Qed.

Lemma exchange_crash (o : outcome) (e : exn) :
  caught e = false ->
  o = Raised e \/ (exists code, o = Responded code (Raise e)) ->
  exchange_result o = Raise e.
Proof.
  intros He [->|[code ->]]; cbn [exchange_result]; rewrite He; reflexivity.
Qed.

(** The [try] block shared by [pull], [__push_status] and [__push_whois],
    with the statements after it. *)
Lemma exchange_run (net : service) u p t (w : world) :
  run (r <- try_except
              (response <- session_post net u p t ;;
               response_json <- response_json response ;;
               if resp_status_code response =? 200
               then ret (Some response_json)
               else ret None)
              (ret None) ;;
       returned_or_none r) w
  = (exchange_result (net (sent w) (mk_request POST u p t)),
     {| self := self w; sent := sent w ++ [mk_request POST u p t] |}).
Proof.
  unfold exchange_result. unfold_methods.
  destruct (net _ _) as [code [j|e]|e]; cbn.
  - destruct (code =? 200); reflexivity.
  - destruct e; reflexivity.
  - destruct e; reflexivity.
Qed.

Lemma pull_func_str (net : service) (w : world) (s : string) :
  run (pull_func net (VStr s)) w
  = (exchange_result (net (sent w) (pull_request (self w) s)),
     {| self := self w; sent := sent w ++ [pull_request (self w) s] |}).
Proof.
  unfold pull_func, pull_request. unfold run, bind at 1, get_self.
  apply exchange_run.
Qed.

Lemma pull_func_not_str (net : service) (w : world) (v : value) :
  is_str v = false -> run (pull_func net v) w = (Raise TypeError, w).
Proof. destruct v; try discriminate; reflexivity. Qed.

Lemma pull_str (net : service) (w : world) (s : string) :
  guessed net w ->
  run (pull net (VStr s)) w
  = (exchange_result
       (net (sent (ensured net w)) (pull_request (self (ensured net w)) s)),
     {| self := self (ensured net w);
        sent := sent (ensured net w) ++ [pull_request (self (ensured net w)) s] |}).
Proof. intros H. unfold pull. rewrite ensure_run by exact H. apply pull_func_str. Qed.

(** C1, as the code has it: for every instance constructed with no token
    (the token is empty once [__init__] has run), the generation is not yet
    resolved after construction; the guess resolves it without any request,
    and to LEGACY ([is_modern_api] is [False]), not to MODERN; and
    [pull(subject)] sends exactly one request, a POST to
    [{url_base}/v1/subject/search], after which the generation is LEGACY. *)
Theorem C1_no_token_resolves_to_legacy
  (net : service) (env : environment) (tok url origin tmo : value)
  (w : world) (s : string) :
  run (__init__ env tok url origin tmo) (fresh class_defaults) = (Ok tt, w) ->
  no_token (self w) ->
  api_generation (self w) = UNKNOWN
  /\ run (guess_and_set_is_modern_api net) w
     = (Ok tt, {| self := resolved false (self w); sent := [] |})
  /\ api_generation (self (after (pull net (VStr s)) w)) = LEGACY
  /\ sent (after (pull net (VStr s)) w)
     = [mk_request POST
          (format_opt_str (_url_base (self w)) ++ "/v1/subject/search")
          (JsonPayload (VDict [("subject", VStr s)]))
          (_timeout (self w))].
Proof.
  intros Hinit Htok.
  destruct (init_unknown env tok url origin tmo w) as [Hgen Hsent].
  { unfold after. unfold run in Hinit. rewrite Hinit. reflexivity. }
  split; [unfold api_generation; rewrite Hgen; reflexivity|].
  split; [rewrite guess_no_token by exact Htok; rewrite Hsent; reflexivity|].
  unfold after. change (pull net (VStr s) w) with (run (pull net (VStr s)) w).
  rewrite pull_str by (apply guessed_if_no_token; exact Htok).
  rewrite ensured_unknown_no_token by assumption.
  cbn [snd self sent]. rewrite Hsent. split; reflexivity.
Qed.

Lemma C1_no_token_resolves_to_legacy_witness :
  api_generation (self anonymous_instance) = UNKNOWN
  /\ run (guess_and_set_is_modern_api (always found)) anonymous_instance
     = (Ok tt, {| self := resolved false (self anonymous_instance); sent := [] |})
  /\ api_generation
       (self (after (pull (always found) (VStr "test.tld")) anonymous_instance))
     = LEGACY
  /\ sent (after (pull (always found) (VStr "test.tld")) anonymous_instance)
     = [mk_request POST
          (format_opt_str (_url_base (self anonymous_instance))
           ++ "/v1/subject/search")
          (JsonPayload (VDict [("subject", VStr "test.tld")]))
          (_timeout (self anonymous_instance))].
Proof.
  apply (C1_no_token_resolves_to_legacy (always found) bare_environment
           (VStr "") (VStr "https://api.example.test") (VStr "latest")
           (VFloat (5 # 2)) anonymous_instance "test.tld").
  - reflexivity.
  - reflexivity.
Defined.

(** C1 as stated fails on the round-trip scenario of the specification: the
    instance built with [token=""] and
    [url_base="https://api.example.test"] resolves to LEGACY, not MODERN, and
    [pull("test.tld")] posts to [/v1/subject/search], not to the hub
    aggregation path. *)
Lemma C1_counterexample :
  no_token (self anonymous_instance)
  /\ api_generation
       (self (after (guess_and_set_is_modern_api (always found))
                anonymous_instance))
     <> MODERN
  /\ map req_url
       (sent (after (pull (always found) (VStr "test.tld")) anonymous_instance))
     <> ["https://api.example.test/v1/hub/aggregation/subject/search"]
  /\ map req_url
       (sent (after (pull (always found) (VStr "test.tld")) anonymous_instance))
     = ["https://api.example.test/v1/subject/search"].
Proof.
  split; [reflexivity|].
  split; [vm_compute; discriminate|].
  split; [vm_compute; discriminate|].
  vm_compute. reflexivity.
Qed.

(** C2, as the code has it: for every instance with a token, the probe sends
    one GET to [{url_base}/v1/stats/subject] with the configured timeout.
    When the call gives a response whose status is not an error status (not
    400 to 599), the generation becomes LEGACY, whatever the body is: the
    probe does not parse it.  When the status is an error status, or the call
    raises a [RequestException] or a [JSONDecodeError], the generation
    becomes MODERN.  When the call raises an exception of another class, the
    guess raises it and the generation is left as it was. *)
Theorem C2_probe_with_token (net : service) (w : world) :
  has_token (self w) ->
  let probe := mk_request GET
                 (format_opt_str (_url_base (self w)) ++ "/v1/stats/subject")
                 NoPayload (_timeout (self w)) in
  let o := net (sent w) probe in
  let w' := after (guess_and_set_is_modern_api net) w in
  sent w' = (sent w ++ [probe])%list
  /\ (forall code body,
        o = Responded code body -> is_error_status code = false ->
        outcome_of (guess_and_set_is_modern_api net) w = Ok tt
        /\ api_generation (self w') = LEGACY)
  /\ (forall code body,
        o = Responded code body -> is_error_status code = true ->
        outcome_of (guess_and_set_is_modern_api net) w = Ok tt
        /\ api_generation (self w') = MODERN)
  /\ (forall e, o = Failed e ->
        outcome_of (guess_and_set_is_modern_api net) w = Ok tt
        /\ api_generation (self w') = MODERN)
  /\ (forall e, o = Raised e -> caught e = false ->
        outcome_of (guess_and_set_is_modern_api net) w = Raise e
        /\ self w' = self w).
Proof.
  intros Htok probe o w'.
  change probe with (probe_request (self w)) in *.
  subst w'. unfold outcome_of, after.
  change (guess_and_set_is_modern_api net w)
    with (run (guess_and_set_is_modern_api net) w).
  split.
  { destruct (guess_cases net w) as [[Hn _]|[(_ & _ & ->)|(e & _ & _ & _ & ->)]];
      try reflexivity.
    unfold no_token, has_token in *. congruence. }
  split.
  { intros code body Ho He.
    rewrite guess_with_token by (try exact Htok; fold o; rewrite Ho; reflexivity).
    fold o. rewrite Ho. cbn [fst snd self probe_says_modern].
    rewrite He. split; reflexivity. }
  split.
  { intros code body Ho He.
    rewrite guess_with_token by (try exact Htok; fold o; rewrite Ho; reflexivity).
    fold o. rewrite Ho. cbn [fst snd self probe_says_modern].
    rewrite He. split; reflexivity. }
  split.
  { intros e Ho.
    rewrite guess_with_token by (try exact Htok; fold o; rewrite Ho; reflexivity).
    fold o. rewrite Ho. split; reflexivity. }
  intros e Ho He.
  rewrite (guess_crashes net w e) by assumption. split; reflexivity.
Qed.

Lemma C2_probe_with_token_witness :
  sent (after (guess_and_set_is_modern_api (always found)) token_instance)
  = [mk_request GET "https://api.example.test/v1/stats/subject" NoPayload
       (VFloat (5 # 2))]
  /\ outcome_of (guess_and_set_is_modern_api (always found)) token_instance
     = Ok tt
  /\ api_generation
       (self (after (guess_and_set_is_modern_api (always found)) token_instance))
     = LEGACY.
Proof.
  pose proof (C2_probe_with_token (always found) token_instance eq_refl)
    as (H1 & H2 & _).
  split; [exact H1|].
  apply (H2 200 (Ok (VDict [("subject", VStr "test.tld")]))); reflexivity.
Defined.

(** C2 as stated fails on a response that does not parse and on a status
    that is neither a success nor an error: for the instance with a token, a
    probe answered with status 200 and a body that is not JSON, or with
    status 304, gives LEGACY, not MODERN. *)
Lemma C2_counterexample :
  has_token (self token_instance)
  /\ api_generation
       (self (after (guess_and_set_is_modern_api
                       (always (Responded 200 not_json))) token_instance))
     = LEGACY
  /\ api_generation
       (self (after (guess_and_set_is_modern_api
                       (always (Responded 200 not_json))) token_instance))
     <> MODERN
  /\ api_generation
       (self (after (guess_and_set_is_modern_api
                       (always (Responded 304 not_json))) token_instance))
     <> MODERN.
Proof.
  split; [reflexivity|]. split; [reflexivity|].
  split; vm_compute; discriminate.
Qed.

(** C3, as the code has it: for every string subject, when the guess of the
    decorator, if any, returned, [pull(subject)] sends one POST.  It returns
    the parsed body when the response has status 200 and
    [response.json()] returns; it returns [None] when [response.json()]
    returns and the status is not 200, when [response.json()] raises a
    [JSONDecodeError] or a [RequestException], and when the call raises one
    of these; it returns a given value other than [None] exactly when the
    response has status 200 and that value as its parsed body.  An exception
    of another class, raised by the call or by [response.json()], leaves
    [pull]; so does one raised by the probe of the decorator.  In no case
    does a [RequestException] or a [JSONDecodeError] leave [pull]. *)
Theorem C3_pull_soft_failure (net : service) (w : world) (s : string) :
  let w1 := ensured net w in
  let o := net (sent w1) (pull_request (self w1) s) in
  let r := outcome_of (pull net (VStr s)) w in
  (guessed net w ->
   sent (after (pull net (VStr s)) w)
   = (sent w1 ++ [pull_request (self w1) s])%list
   /\ (forall j, o = Responded 200 (Ok j) -> r = Ok j)
   /\ (forall code j, o = Responded code (Ok j) -> code <> 200 -> r = Ok VNone)
   /\ (forall code e, o = Responded code (Raise (NetError e)) -> r = Ok VNone)
   /\ (forall e, o = Failed e -> r = Ok VNone)
   /\ (forall e, caught e = false ->
         o = Raised e \/ (exists code, o = Responded code (Raise e)) ->
         r = Raise e)
   /\ (forall v, v <> VNone -> (r = Ok v <-> o = Responded 200 (Ok v))))
  /\ (forall e,
        outcome_of (ensure_is_modern_api_is_set net (ret tt)) w = Raise e ->
        run (pull net (VStr s)) w = (Raise e, w1))
  /\ (forall e, r <> Raise (NetError e)).
Proof.
  intros w1 o r. split; [|split].
  - intros Hg. subst r. unfold outcome_of, after.
    change (pull net (VStr s) w) with (run (pull net (VStr s)) w).
    rewrite pull_str by exact Hg. cbn [fst snd sent]. fold w1. fold o.
    split; [reflexivity|].
    split; [intros j ->; reflexivity|].
    split.
    { intros code j -> Hc. cbn [exchange_result].
      destruct (Z.eqb_spec code 200); [contradiction|reflexivity]. }
    split; [intros code e ->; reflexivity|].
    split; [intros e ->; reflexivity|].
    split.
    { intros e He [->|[code ->]]; cbn [exchange_result]; rewrite He;
        reflexivity. }
    intros v Hv. split.
    + intros H. destruct o as [code [j|e]|e]; cbn [exchange_result] in H.
      * destruct (Z.eqb_spec code 200); congruence.
      * destruct (caught e); congruence.
      * destruct (caught e); congruence.
    + intros ->. reflexivity.
  - intros e He. unfold pull. apply ensure_raises, He.
  - intros e He. subst r. unfold outcome_of in He.
    change (pull net (VStr s) w) with (run (pull net (VStr s)) w) in He.
    destruct (outcome_of (ensure_is_modern_api_is_set net (ret tt)) w)
      as [[]|e'] eqn:E.
    + rewrite pull_str in He by exact E. cbn [fst] in He.
      destruct (net _ _) as [code [j|e1]|e1]; cbn [exchange_result] in He;
        try discriminate;
        destruct (caught e1) eqn:Hc; try discriminate;
        injection He as ->; discriminate.
    + pose proof (ensure_raises_uncaught net w e' E) as Hc.
      unfold pull in He. rewrite (ensure_raises net _ w e' E) in He.
      cbn [fst] in He. injection He as ->. discriminate.
Qed.

(** C3 as stated fails when [response.json()] raises an exception that is
    not a [JSONDecodeError]: on a response of status 200 whose body makes the
    parser raise a [RecursionError] (a body nested too deeply) or a
    [ValueError] (an integer of too many digits), [pull("test.tld")] raises
    this exception instead of returning [None]. *)
Lemma C3_counterexample :
  outcome_of (pull (always (Responded 200 (Raise RecursionError)))
                (VStr "test.tld")) anonymous_instance
  = Raise RecursionError
  /\ outcome_of (pull (always (Responded 200 (Raise RecursionError)))
                   (VStr "test.tld")) anonymous_instance
     <> Ok VNone
  /\ outcome_of (pull (always (Responded 200 (Raise ValueError)))
                   (VStr "test.tld")) anonymous_instance
     = Raise ValueError.
Proof.
  split; [reflexivity|]. split; [discriminate|reflexivity].
Qed.

(** ** Submission *)

Section Submission.

Variable net : service.

Lemma push_status_no_token (w : world) (ct : string) (data : value) :
  no_token (self w) -> run (__push_status net ct data) w = (Ok VNone, w).
Proof.
  unfold no_token. intros H. unfold __push_status. unfold_methods.
  rewrite H. reflexivity.
Qed.

Lemma push_status_unsupported (w : world) (ct : string) (data : value) :
  has_token (self w) -> str_in ct SUPPORTED_CHECKERS = false ->
  run (__push_status net ct data) w = (Raise ValueError, w).
Proof.
  unfold has_token. intros H Hct. unfold __push_status. unfold_methods.
  rewrite H, Hct. reflexivity.
Qed.

Lemma push_status_supported (w : world) (ct : string) (data : value) :
  has_token (self w) -> str_in ct SUPPORTED_CHECKERS = true ->
  let req := mk_request POST (push_status_url (self w) ct)
               (push_status_payload data) (_timeout (self w)) in
  run (__push_status net ct data) w
  = (exchange_result (net (sent w) req),
     {| self := self w; sent := sent w ++ [req] |}).
Proof.
  intros H Hct. cbv zeta. unfold has_token in H.
  unfold __push_status, run, bind at 1, get_self.
  rewrite H, Hct. cbn [negb]. apply exchange_run.
Qed.

Lemma push_whois_no_token (w : world) (data : value) :
  no_token (self w) -> run (__push_whois net data) w = (Ok VNone, w).
Proof.
  unfold no_token. intros H. unfold __push_whois. unfold_methods.
  rewrite H. reflexivity.
Qed.

Lemma push_whois_status (w : world) (st : checker_status) :
  has_token (self w) ->
  run (__push_whois net (VStatus st)) w
  = (exchange_result (net (sent w) (whois_request (self w) st)),
     {| self := self w; sent := sent w ++ [whois_request (self w) st] |}).
Proof.
  unfold has_token. intros H.
  unfold __push_whois, whois_request, run, bind at 1, get_self.
  rewrite H. cbn [negb]. apply exchange_run.
Qed.

(** The WHOIS submission of a record returns: no token is configured, or the
    call is [soft]. *)
Lemma push_whois_returns (w : world) (st : checker_status) :
  (has_token (self w) -> soft (net (sent w) (whois_request (self w) st)) = true) ->
  exists r, outcome_of (__push_whois net (VStatus st)) w = Ok r.
Proof.
  intros H. unfold outcome_of.
  change (__push_whois net (VStatus st) w)
    with (run (__push_whois net (VStatus st)) w).
  destruct (truthy_opt_str (_token (self w))) eqn:Ht.
  - rewrite push_whois_status by exact Ht. cbn [fst].
    rewrite exchange_soft by (apply H; exact Ht). eexists. reflexivity.
  - rewrite push_whois_no_token by exact Ht. eexists. reflexivity.
Qed.

(** The body of [push] on a record that passes its four checks: the WHOIS
    submission when the generation is not the modern one and the record has
    an expiration date, then the status submission. *)
Lemma push_func_steps (w : world) (st : checker_status) (subj ct : string) :
  subject st = VStr subj -> subj <> "" -> checker_type st = VStr ct ->
  run (push_func net (VStatus st)) w
  = run ((if negb (truthy_opt_bool (_is_modern_api (self w)))
             && has_expiration_date st
          then (_ <- __push_whois net (VStatus st) ;; ret tt)
          else ret tt) ;;;
         __push_status net (lower ct) (VStr (to_json st))) w.
Proof.
  intros Hs Hne Hct. unfold push_func, run. rewrite Hs, Hct.
  apply String.eqb_neq in Hne. rewrite Hne.
  unfold bind at 1. unfold get_self at 1. reflexivity.
Qed.

Lemma push_func_valid (w : world) (st : checker_status) (subj ct : string) :
  subject st = VStr subj -> subj <> "" -> checker_type st = VStr ct ->
  (negb (truthy_opt_bool (_is_modern_api (self w))) && has_expiration_date st
   = true ->
   has_token (self w) ->
   soft (net (sent w) (whois_request (self w) st)) = true) ->
  run (push_func net (VStatus st)) w
  = run (__push_status net (lower ct) (VStr (to_json st)))
      (if negb (truthy_opt_bool (_is_modern_api (self w)))
          && has_expiration_date st
       then after (__push_whois net (VStatus st)) w
       else w).
Proof.
  intros Hs Hne Hct Hsoft. rewrite (push_func_steps w st subj ct Hs Hne Hct).
  destruct (negb _ && _)%bool.
  - destruct (push_whois_returns w st (Hsoft eq_refl)) as [r Hr].
    unfold run, after, outcome_of, bind, ret in *.
    destruct (__push_whois net (VStatus st) w) as [[r'|e] w1]; cbn [fst snd] in *;
      [reflexivity|discriminate].
  - reflexivity.
Qed.

(** The exception of the WHOIS submission leaves [push], and the status
    submission is not made. *)
Lemma push_func_whois_raises
  (w : world) (st : checker_status) (subj ct : string) (e : exn) :
  subject st = VStr subj -> subj <> "" -> checker_type st = VStr ct ->
  negb (truthy_opt_bool (_is_modern_api (self w))) && has_expiration_date st
  = true ->
  outcome_of (__push_whois net (VStatus st)) w = Raise e ->
  run (push_func net (VStatus st)) w
  = (Raise e, after (__push_whois net (VStatus st)) w).
Proof.
  intros Hs Hne Hct Hc He. rewrite (push_func_steps w st subj ct Hs Hne Hct).
  rewrite Hc. unfold run, after, outcome_of, bind, ret in *.
  destruct (__push_whois net (VStatus st) w) as [[r'|e'] w1]; cbn [fst snd] in *;
    [discriminate|].
  injection He as ->. reflexivity.
Qed.

Lemma push_valid (w : world) (st : checker_status) (subj ct : string) :
  guessed net w ->
  subject st = VStr subj -> subj <> "" -> checker_type st = VStr ct ->
  (negb (truthy_opt_bool (_is_modern_api (self (ensured net w))))
   && has_expiration_date st = true ->
   has_token (self (ensured net w)) ->
   soft (net (sent (ensured net w)) (whois_request (self (ensured net w)) st))
   = true) ->
  run (push net (VStatus st)) w
  = run (__push_status net (lower ct) (VStr (to_json st)))
      (if negb (truthy_opt_bool (_is_modern_api (self (ensured net w))))
          && has_expiration_date st
       then after (__push_whois net (VStatus st)) (ensured net w)
       else ensured net w).
Proof.
  intros Hg Hs Hne Hct Hsoft. unfold push. rewrite ensure_run by exact Hg.
  eapply push_func_valid; eauto.
Qed.

(** With a token, an unsupported checker type is a value error. *)
Lemma push_unsupported_with_token
  (w : world) (st : checker_status) (subj ct : string) (b : bool) :
  subject st = VStr subj -> subj <> "" -> checker_type st = VStr ct ->
  has_token (self w) -> _is_modern_api (self w) = Some b ->
  has_expiration_date st = false ->
  str_in (lower ct) SUPPORTED_CHECKERS = false ->
  run (push net (VStatus st)) w = (Raise ValueError, w).
Proof.
  intros Hs Hne Hct Ht Hg He Hu.
  rewrite (push_valid w st subj ct (guessed_if_resolved net w b Hg) Hs Hne Hct).
  - rewrite (ensured_resolved net w b Hg), He, andb_false_r.
    apply push_status_unsupported; assumption.
  - rewrite He, andb_false_r. discriminate.
Qed.

End Submission.

(** C4: for every record that passes the checks of [push] (its subject is a
    non-empty string and its checker type is a string), if no token is
    configured then [push] returns [None] and sends no request, whatever the
    checker type is and whether or not the generation was resolved before;
    in particular it does not raise a value error for a checker type that is
    not supported. *)
Theorem C4_push_without_token
  (net : service) (w : world) (st : checker_status) (subj ct : string) :
  no_token (self w) ->
  subject st = VStr subj -> subj <> "" -> checker_type st = VStr ct ->
  outcome_of (push net (VStatus st)) w = Ok VNone
  /\ sent (after (push net (VStatus st)) w) = sent w.
Proof.
  intros Ht Hs Hne Hct. unfold outcome_of, after.
  change (push net (VStatus st) w) with (run (push net (VStatus st)) w).
  assert (He : no_token (self (ensured net w)) /\ sent (ensured net w) = sent w).
  { destruct (_is_modern_api (self w)) as [b|] eqn:Hg.
    - rewrite (ensured_resolved net w b Hg). auto.
    - rewrite ensured_unknown_no_token by assumption. auto. }
  destruct He as [Ht1 Hsent].
  rewrite (push_valid net w st subj ct (guessed_if_no_token net w Ht) Hs Hne Hct);
    [|intros _ Htok; unfold has_token, no_token in *; congruence].
  destruct (negb _ && _)%bool.
  - unfold after at 1 2.
    change (__push_whois net (VStatus st) (ensured net w))
      with (run (__push_whois net (VStatus st)) (ensured net w)).
    rewrite push_whois_no_token by exact Ht1. cbn [snd].
    rewrite push_status_no_token by exact Ht1. auto.
  - rewrite push_status_no_token by exact Ht1. auto.
Qed.

Lemma C4_push_without_token_witness :
  outcome_of (push (always found) (VStatus (dated_status "bogus")))
    anonymous_instance = Ok VNone
  /\ sent (after (push (always found) (VStatus (dated_status "bogus")))
             anonymous_instance)
     = sent anonymous_instance.
Proof.
  apply (C4_push_without_token (always found) anonymous_instance
           (dated_status "bogus") "example.org" "bogus").
  - reflexivity.
  - reflexivity.
  - discriminate.
  - reflexivity.
Defined.

Lemma legacy_inv (c : client) :
  api_generation c = LEGACY -> _is_modern_api c = Some false.
Proof.
  unfold api_generation. destruct (_is_modern_api c) as [[|]|]; congruence.
Qed.

Lemma modern_inv (c : client) :
  api_generation c = MODERN -> _is_modern_api c = Some true.
Proof.
  unfold api_generation. destruct (_is_modern_api c) as [[|]|]; congruence.
Qed.




(** ** The setter of the URL base *)

(** C6: setting [url_base] to a value that is not a string raises a type
    error; to a string that begins neither with [http] nor with [https], a
    value error; both leave the instance as it was.  For every accepted
    string the stored value is the string without its trailing ['/']
    characters: the string is the stored value followed by ['/'] characters
    only, the stored value does not end with ['/'], it is what the property
    reads back, and setting it again changes nothing. *)
Theorem C6_url_base_setter (v : value) (w : world) :
  (is_str v = false -> run (url_base_set v) w = (Raise TypeError, w))
  /\ (forall s, v = VStr s ->
        startswith s "http" = false -> startswith s "https" = false ->
        run (url_base_set v) w = (Raise ValueError, w))
  /\ (forall s, v = VStr s ->
        startswith s "http" = true \/ startswith s "https" = true ->
        let w' := after (url_base_set v) w in
        outcome_of (url_base_set v) w = Ok tt
        /\ outcome_of url_base w' = Ok (Some (rstrip_slash s))
        /\ (exists n, s = rstrip_slash s ++ slashes n)
        /\ ends_with_slash (rstrip_slash s) = false
        /\ run (url_base_set (VStr (rstrip_slash s))) w' = (Ok tt, w')).
Proof.
  split; [destruct v; try discriminate; reflexivity|].
  split.
  - intros s -> H1 H2. unfold url_base_set, run.
    rewrite startswith_any_http, H1. reflexivity.
  - intros s -> H w'.
    assert (Hp : startswith s "http" = true).
    { destruct H as [H|H]; [exact H|apply startswith_https_http, H]. }
    subst w'. unfold url_base_set, outcome_of, after, run.
    rewrite !startswith_any_http, Hp, (rstrip_slash_keeps_http s Hp).
    cbn [negb]. unfold url_base, modify_self, bind, get_self, ret.
    cbn [fst snd self _url_base _token _preferred_status_origin
           _is_modern_api _timeout sent].
    rewrite rstrip_slash_idempotent.
    repeat split.
    + apply rstrip_slash_decompose.
    + apply rstrip_slash_no_trailing.
Qed.

(** C10: every string that begins with the four characters [http] is
    accepted by the setter of [url_base], whatever follows them; the test on
    the pair of prefixes [http] and [https] is the test on [http] alone. *)
Theorem C10_http_prefix_accepted (s : string) (w : world) :
  startswith s "http" = true ->
  outcome_of (url_base_set (VStr s)) w = Ok tt
  /\ _url_base (self (after (url_base_set (VStr s)) w)) = Some (rstrip_slash s)
  /\ (forall s', startswith_any s' ["http"; "https"] = startswith s' "http").
Proof.
  intros Hp. unfold url_base_set, outcome_of, after.
  rewrite startswith_any_http, Hp. cbn [negb].
  repeat split. apply startswith_any_http.
Qed.

Lemma C10_http_prefix_accepted_witness :
  outcome_of (url_base_set (VStr "httpfoo.example")) (fresh class_defaults)
  = Ok tt
  /\ _url_base (self (after (url_base_set (VStr "httpfoo.example"))
                        (fresh class_defaults)))
     = Some "httpfoo.example".
Proof.
  pose proof (C10_http_prefix_accepted "httpfoo.example" (fresh class_defaults)
                eq_refl) as (H1 & H2 & _).
  split; [exact H1|exact H2].
Defined.

(** ** Containment and indexing *)

(** C9: for every value, and so for every string, [client[value]] is
    [pull(value)]: the same result or the same exception, and the same
    instance and requests after it.  [value in client] runs [pull(value)]
    once: when [pull] returns, it is true exactly when what [pull] returned
    is not [None]; when [pull] raises, it raises the same exception; it does
    nothing else to the instance or the network. *)
Theorem C9_contains_getitem_delegate (net : service) (w : world) (v : value) :
  run (__getitem__ net v) w = run (pull net v) w
  /\ after (__contains__ net v) w = after (pull net v) w
  /\ (forall r, outcome_of (pull net v) w = Ok r ->
        outcome_of (__contains__ net v) w
        = Ok (match r with VNone => false | _ => true end)
        /\ (outcome_of (__contains__ net v) w = Ok true <-> r <> VNone))
  /\ (forall e, outcome_of (pull net v) w = Raise e ->
        outcome_of (__contains__ net v) w = Raise e).
Proof.
  split; [reflexivity|].
  unfold outcome_of, after, __contains__, bind, ret.
  destruct (pull net v w) as [[r|e] w1]; cbn [fst snd].
  - split; [reflexivity|]. split; [|discriminate].
    intros r' H. injection H as <-. split; [reflexivity|].
    destruct r; split; congruence.
  - split; [reflexivity|]. split; [discriminate|].
    intros e' H. injection H as <-. reflexivity.
Qed.

(** ** The generation cache *)

Lemma posts_only_ret {A} (a : A) : posts_only (ret a).
Proof. intros w. split; reflexivity. Qed.

Lemma posts_only_raise {A} (e : exn) : posts_only (@raise A e).
Proof. intros w. split; reflexivity. Qed.

Lemma posts_only_bind {A B} (m : M A) (k : A -> M B) :
  posts_only m -> (forall a, posts_only (k a)) -> posts_only (bind m k).
Proof.
  intros Hm Hk w. specialize (Hm w). unfold after, bind in *.
  destruct (m w) as [[a|e] w1]; simpl in Hm.
  - destruct (Hk a w1) as [H1 H2]. unfold after in *.
    destruct Hm as [H3 H4]. rewrite H1, H2. auto.
  - exact Hm.
Qed.

Lemma posts_only_try_except {A} (m h : M A) :
  posts_only m -> posts_only h -> posts_only (try_except m h).
Proof.
  intros Hm Hh w. specialize (Hm w). unfold after, try_except in *.
  destruct (m w) as [[a|[| |e| |cls]] w1]; simpl in Hm; try exact Hm.
  destruct (Hh w1) as [H1 H2]. unfold after in *.
  destruct Hm as [H3 H4]. rewrite H1, H2. auto.
Qed.

Lemma posts_only_get_self : posts_only get_self.
Proof. intros w. split; reflexivity. Qed.

Lemma posts_only_session_post (net : service) u p t :
  posts_only (session_post net u p t).
Proof.
  intros w. unfold after, session_post, send.
  destruct (net _ _); cbn [snd self sent]; rewrite probes_post; auto.
Qed.

Lemma posts_only_response_json (net : service) (r : response) :
  posts_only (response_json r).
Proof.
  unfold response_json.
  destruct (resp_body r); [apply posts_only_ret|apply posts_only_raise].
Qed.

(** The [try] block shared by [pull], [__push_status] and [__push_whois]. *)
Lemma posts_only_exchange (net : service) u p t :
  posts_only
    (r <- try_except
            (response <- session_post net u p t ;;
             response_json <- response_json response ;;
             if resp_status_code response =? 200
             then ret (Some response_json)
             else ret None)
            (ret None) ;;
     returned_or_none r).
Proof.
  apply posts_only_bind.
  - apply posts_only_try_except; [|apply posts_only_ret].
    apply posts_only_bind; [apply posts_only_session_post|intros resp].
    apply posts_only_bind; [apply (posts_only_response_json net)|intros j].
    destruct (_ =? _); apply posts_only_ret.
  - intros [v|]; apply posts_only_ret.
Qed.

Lemma posts_only_pull_func (net : service) (v : value) :
  posts_only (pull_func net v).
Proof.
  destruct v; try apply posts_only_raise.
  unfold pull_func.
  apply posts_only_bind; [apply posts_only_get_self|intros c].
  apply posts_only_exchange.
Qed.

Lemma posts_only_push_status (net : service) (ct : string) (data : value) :
  posts_only (__push_status net ct data).
Proof.
  unfold __push_status.
  apply posts_only_bind; [apply posts_only_get_self|intros c].
  destruct (negb (truthy_opt_str _)); [apply posts_only_ret|].
  destruct (negb (str_in _ _)); [apply posts_only_raise|].
  apply posts_only_exchange.
Qed.

Lemma posts_only_push_whois (net : service) (data : value) :
  posts_only (__push_whois net data).
Proof.
  unfold __push_whois.
  apply posts_only_bind; [apply posts_only_get_self|intros c].
  destruct (negb (truthy_opt_str _)); [apply posts_only_ret|].
  destruct data; try apply posts_only_raise; apply posts_only_exchange.
Qed.

Lemma posts_only_push_func (net : service) (v : value) :
  posts_only (push_func net v).
Proof.
  destruct v; try apply posts_only_raise.
  unfold push_func.
  destruct (subject st); try apply posts_only_raise.
  destruct (checker_type st); try apply posts_only_raise.
  destruct (_ =? _)%string; [apply posts_only_raise|].
  apply posts_only_bind; [apply posts_only_get_self|intros c].
  apply posts_only_bind; [|intros _; apply posts_only_push_status].
  destruct (_ && _)%bool; [|apply posts_only_ret].
  apply posts_only_bind; [apply posts_only_push_whois|intros _].
  apply posts_only_ret.
Qed.

Lemma perform_run (net : service) (o : operation) (w : world) :
  guessed net w ->
  run (perform net o) w = run (undecorated net o) (ensured net w).
Proof. intros H. destruct o; apply ensure_run, H. Qed.

Lemma perform_unknown (net : service) (o : operation) (w : world) :
  _is_modern_api (self w) = None ->
  run (perform net o) w
  = run (guess_and_set_is_modern_api net ;;; undecorated net o) w.
Proof. intros H. destruct o; apply ensure_unknown, H. Qed.

Lemma perform_known (net : service) (o : operation) (w : world) (b : bool) :
  _is_modern_api (self w) = Some b ->
  run (perform net o) w = run (undecorated net o) w.
Proof. intros H. destruct o; apply (ensure_resolved net _ w b H). Qed.

Lemma generation_known (c : client) :
  api_generation c <> UNKNOWN <-> _is_modern_api c <> None.
Proof.
  unfold api_generation.
  destruct (_is_modern_api c) as [[|]|]; split; congruence.
Qed.

Lemma generation_unknown (c : client) :
  api_generation c = UNKNOWN <-> _is_modern_api c = None.
Proof.
  unfold api_generation.
  destruct (_is_modern_api c) as [[|]|]; split; congruence.
Qed.

Lemma posts_only_undecorated (net : service) (o : operation) :
  posts_only (undecorated net o).
Proof. destruct o; [apply posts_only_pull_func|apply posts_only_push_func]. Qed.

(** After a call the world is the one its body leaves when run in the world
    of the decorator, or, when the guess raised, the world of the
    decorator. *)
Lemma perform_after (net : service) (o : operation) (w : world) :
  (guessed net w
   /\ after (perform net o) w = after (undecorated net o) (ensured net w))
  \/ ((exists e,
         outcome_of (ensure_is_modern_api_is_set net (ret tt)) w = Raise e)
      /\ after (perform net o) w = ensured net w).
Proof.
  destruct (outcome_of (ensure_is_modern_api_is_set net (ret tt)) w)
    as [[]|e] eqn:E.
  - left. split; [exact E|]. unfold after.
    change (perform net o w) with (run (perform net o) w).
    rewrite perform_run by exact E. reflexivity.
  - right. split; [eauto|]. unfold after.
    change (perform net o w) with (run (perform net o) w).
    destruct o; cbn [perform]; unfold pull, push;
      rewrite (ensure_raises net _ w e E); reflexivity.
Qed.

Lemma perform_resolved (net : service) (o : operation) (w : world) :
  api_generation (self w) <> UNKNOWN ->
  self (after (perform net o) w) = self w
  /\ probes (sent (after (perform net o) w)) = probes (sent w).
Proof.
  intros H. apply generation_known in H.
  destruct (_is_modern_api (self w)) as [b|] eqn:Hg; [|congruence].
  unfold after. change (perform net o w) with (run (perform net o) w).
  rewrite (perform_known net o w b Hg).
  apply posts_only_undecorated.
Qed.

(** A call sends at most one probe. *)
Lemma perform_probes (net : service) (o : operation) (w : world) :
  (probes (sent (after (perform net o) w)) <= S (probes (sent w)))%nat.
Proof.
  destruct (ensured_spec net w) as (_ & _ & _ & Hp).
  destruct (perform_after net o w) as [[_ ->]|[_ ->]]; [|lia].
  destruct (posts_only_undecorated net o (ensured net w)) as [_ ->]. lia.
Qed.

(** A call whose guess returned leaves a resolved generation. *)
Lemma perform_resolves (net : service) (o : operation) (w : world) :
  guessed net w -> api_generation (self (after (perform net o) w)) <> UNKNOWN.
Proof.
  intros Hg. unfold after. change (perform net o w) with (run (perform net o) w).
  rewrite perform_run by exact Hg.
  destruct (posts_only_undecorated net o (ensured net w)) as [H _].
  unfold after in H. unfold run. rewrite H.
  apply generation_known, ensured_resolves, Hg.
Qed.

Lemma perform_all_resolved (net : service) (os : list operation) (w : world) :
  api_generation (self w) <> UNKNOWN ->
  self (perform_all net os w) = self w
  /\ probes (sent (perform_all net os w)) = probes (sent w).
Proof.
  revert w. induction os as [|o os IH]; intros w H; [split; reflexivity|].
  cbn [perform_all].
  destruct (perform_resolved net o w H) as [H1 H2].
  destruct (IH (after (perform net o) w)) as [H3 H4].
  - rewrite H1. exact H.
  - rewrite H3, H4. auto.
Qed.

Lemma perform_all_app (net : service) (os1 os2 : list operation) (w : world) :
  perform_all net (os1 ++ os2) w = perform_all net os2 (perform_all net os1 w).
Proof.
  revert w. induction os1 as [|o os1 IH]; intros w; [reflexivity|].
  cbn [app perform_all]. apply IH.
Qed.

(** C7: the generation of an instance is UNKNOWN by default and after
    [__init__].  [pull] and [push] run their body at once when the generation
    is LEGACY or MODERN (no guess, no probe), and run the guess first, then
    their body, when it is UNKNOWN.  Once the generation is LEGACY or MODERN,
    no call and no sequence of [pull] and [push] calls changes it or sends a
    probe, so that in any sequence of calls the generation changes at most
    once.  A call whose guess returns leaves a resolved generation; a call
    sends at most one probe. *)
Theorem C7_generation_resolved_once (net : service) :
  api_generation class_defaults = UNKNOWN
  /\ (forall env tok url origin tmo,
        api_generation
          (self (after (__init__ env tok url origin tmo) (fresh class_defaults)))
        = UNKNOWN)
  /\ (forall o w, api_generation (self w) <> UNKNOWN ->
        run (perform net o) w = run (undecorated net o) w)
  /\ (forall o w, api_generation (self w) = UNKNOWN ->
        run (perform net o) w
        = run (guess_and_set_is_modern_api net ;;; undecorated net o) w)
  /\ (forall o w, api_generation (self w) <> UNKNOWN ->
        api_generation (self (after (perform net o) w)) = api_generation (self w)
        /\ probes (sent (after (perform net o) w)) = probes (sent w))
  /\ (forall os w, api_generation (self w) <> UNKNOWN ->
        api_generation (self (perform_all net os w)) = api_generation (self w)
        /\ probes (sent (perform_all net os w)) = probes (sent w))
  /\ (forall os1 os2 w,
        api_generation (self (perform_all net os1 w)) <> UNKNOWN ->
        api_generation (self (perform_all net (os1 ++ os2) w))
        = api_generation (self (perform_all net os1 w)))
  /\ (forall o w, guessed net w ->
        api_generation (self (after (perform net o) w)) <> UNKNOWN)
  /\ (forall o w,
        (probes (sent (after (perform net o) w)) <= S (probes (sent w)))%nat).
Proof.
  split; [reflexivity|].
  split.
  { intros. destruct (init_unknown env tok url origin tmo _ eq_refl) as [H _].
    unfold api_generation. rewrite H. reflexivity. }
  split.
  { intros o w H. apply generation_known in H.
    destruct (_is_modern_api (self w)) as [b|] eqn:Hg; [|congruence].
    apply (perform_known net o w b Hg). }
  split.
  { intros o w H. apply perform_unknown, generation_unknown, H. }
  split.
  { intros o w H. destruct (perform_resolved net o w H) as [H1 H2].
    rewrite H1. auto. }
  split.
  { intros os w H. destruct (perform_all_resolved net os w H) as [H1 H2].
    rewrite H1. auto. }
  split.
  { intros os1 os2 w H. rewrite perform_all_app.
    destruct (perform_all_resolved net os2 _ H) as [H1 _].
    rewrite H1. reflexivity. }
  split; [intros o w; apply perform_resolves|].
  intros o w. apply perform_probes.
Qed.

Lemma push_func_not_status (net : service) (w : world) (v : value) :
  is_status v = false -> run (push_func net v) w = (Raise TypeError, w).
Proof. destruct v; try discriminate; reflexivity. Qed.

Lemma push_func_not_str (net : service) (w : world) (st : checker_status) :
  is_str (subject st) = false \/ is_str (checker_type st) = false ->
  run (push_func net (VStatus st)) w = (Raise TypeError, w).
Proof.
  unfold push_func, run. intros [H|H].
  - destruct (subject st); try discriminate; reflexivity.
  - destruct (subject st); try reflexivity.
    destruct (checker_type st); try discriminate; reflexivity.
Qed.

Lemma push_func_empty_subject (net : service) (w : world) (st : checker_status) :
  subject st = VStr "" -> is_str (checker_type st) = true ->
  run (push_func net (VStatus st)) w = (Raise ValueError, w).
Proof.
  unfold push_func, run. intros -> H.
  destruct (checker_type st); try discriminate; reflexivity.
Qed.

Lemma bind_after_returns {A B} (m : M A) (k : A -> M B) (w : world) (a : A) :
  outcome_of m w = Ok a -> run (bind m k) w = run (k a) (after m w).
Proof.
  unfold outcome_of, after, run, bind.
  destruct (m w) as [[a'|e] w1]; cbn [fst snd]; [|discriminate].
  intros H. injection H as ->. reflexivity.
Qed.

Lemma bind_after_raises {A B} (m : M A) (k : A -> M B) (w : world) (e : exn) :
  outcome_of m w = Raise e -> run (bind m k) w = (Raise e, after m w).
Proof.
  unfold outcome_of, after, run, bind.
  destruct (m w) as [[a'|e'] w1]; cbn [fst snd]; [discriminate|].
  intros H. injection H as ->. reflexivity.
Qed.

(** C8: for an instance whose generation is UNKNOWN, [pull] and [push] run
    the guess before they look at their argument.  When the guess returns,
    [pull] with a subject that is not a string raises a type error, and
    [push] with an object that is not a status record, or with a record whose
    subject or checker type is not a string, raises a type error (a value
    error for an empty subject), and each leaves the instance exactly as the
    guess leaves it, with the generation resolved.  When the probe of the
    guess raises an exception of a class that is not caught, the call raises
    it whatever its argument is, and the generation is left as it was.
    Without a token the guess returns and sends nothing; with a token it
    sends the probe, and returns when the probe gives a response or raises
    an exception that is caught. *)
Theorem C8_guess_runs_before_validation (net : service) (w : world) (v : value) :
  api_generation (self w) = UNKNOWN ->
  let probe :=
    mk_request GET (format_opt_str (_url_base (self w)) ++ "/v1/stats/subject")
      NoPayload (_timeout (self w)) in
  let w' := after (guess_and_set_is_modern_api net) w in
  (outcome_of (guess_and_set_is_modern_api net) w = Ok tt ->
   (is_str v = false -> run (pull net v) w = (Raise TypeError, w'))
   /\ (is_status v = false -> run (push net v) w = (Raise TypeError, w'))
   /\ (forall st, v = VStatus st ->
       is_str (subject st) = false \/ is_str (checker_type st) = false ->
       run (push net v) w = (Raise TypeError, w'))
   /\ (forall st, v = VStatus st ->
       subject st = VStr "" -> is_str (checker_type st) = true ->
       run (push net v) w = (Raise ValueError, w'))
   /\ api_generation (self w') <> UNKNOWN)
  /\ (forall e, outcome_of (guess_and_set_is_modern_api net) w = Raise e ->
      run (pull net v) w = (Raise e, w')
      /\ run (push net v) w = (Raise e, w')
      /\ self w' = self w)
  /\ (no_token (self w) ->
      outcome_of (guess_and_set_is_modern_api net) w = Ok tt
      /\ sent w' = sent w)
  /\ (has_token (self w) ->
      sent w' = (sent w ++ [probe])%list
      /\ (settles (net (sent w) probe) = true ->
          outcome_of (guess_and_set_is_modern_api net) w = Ok tt)).
Proof.
  intros H probe w'. change probe with (probe_request (self w)).
  assert (Hg : _is_modern_api (self w) = None)
    by (apply generation_unknown, H).
  assert (Hpull : run (pull net v) w
                  = run (guess_and_set_is_modern_api net ;;; pull_func net v) w)
    by (apply ensure_unknown, Hg).
  assert (Hpush : run (push net v) w
                  = run (guess_and_set_is_modern_api net ;;; push_func net v) w)
    by (apply ensure_unknown, Hg).
  rewrite Hpull, Hpush.
  unfold outcome_of in *. subst w'. unfold after.
  change (guess_and_set_is_modern_api net w)
    with (run (guess_and_set_is_modern_api net) w).
  split.
  { intros Hok.
    assert (Hb : forall k : unit -> M value,
               run (guess_and_set_is_modern_api net ;;; k tt) w
               = run (k tt) (snd (run (guess_and_set_is_modern_api net) w))).
    { intros k. apply (bind_after_returns _ (fun _ => k tt) w tt). exact Hok. }
    rewrite (Hb (fun _ => pull_func net v)), (Hb (fun _ => push_func net v)).
    split; [intros Hv; apply pull_func_not_str, Hv|].
    split; [intros Hv; apply push_func_not_status, Hv|].
    split; [intros st -> Hv; apply push_func_not_str, Hv|].
    split; [intros st -> Hs Hc; apply push_func_empty_subject; assumption|].
    destruct (guess_cases net w) as [[_ E]|[(_ & _ & E)|(e & _ & _ & _ & E)]];
      rewrite E in *; cbn [fst snd self] in *; try discriminate;
      unfold api_generation; cbn [resolved _is_modern_api];
      destruct (probe_says_modern _) + idtac; discriminate. }
  split.
  { intros e He.
    rewrite !(bind_after_raises _ _ w e He). unfold after.
    change (guess_and_set_is_modern_api net w)
      with (run (guess_and_set_is_modern_api net) w).
    split; [reflexivity|]. split; [reflexivity|].
    destruct (guess_cases net w) as [[_ E]|[(_ & _ & E)|(e' & _ & _ & _ & E)]];
      rewrite E in *; cbn [fst snd self] in *; try discriminate; reflexivity. }
  split.
  { intros Ht. rewrite guess_no_token by exact Ht. split; reflexivity. }
  intros Ht. split.
  - destruct (guess_cases net w) as [[Hn _]|[(_ & _ & E)|(e & _ & _ & _ & E)]];
      try (rewrite E; reflexivity).
    unfold no_token, has_token in *. congruence.
  - intros Hs. rewrite guess_with_token by assumption. reflexivity.
Qed.

Lemma C8_guess_runs_before_validation_witness :
  run (pull (always found) (VInt 5)) token_instance
  = (Raise TypeError, legacy_token_instance)
  /\ api_generation (self legacy_token_instance) = LEGACY
  /\ sent legacy_token_instance
     = [mk_request GET "https://api.example.test/v1/stats/subject" NoPayload
          (VFloat (5 # 2))].
Proof.
  pose proof (C8_guess_runs_before_validation (always found) token_instance
                (VInt 5) eq_refl) as (H1 & _ & _ & H2).
  destruct (H1 eq_refl) as (H3 & _).
  split; [exact (H3 eq_refl)|].
  split; [reflexivity|exact (proj1 (H2 eq_refl))].
Defined.

(** * Further properties *)

(** ** Assignments *)

(** An assignment either stores the value or raises and changes nothing. *)
Lemma assign_run (a : attribute) (v : value) (w : world) :
  run (assign a v) w
  = if well_typed a v
    then if in_domain a v
         then (Ok tt, {| self := put a v (self w); sent := sent w |})
         else (Raise ValueError, w)
    else (Raise TypeError, w).
Proof.
  destruct a, v; try reflexivity; cbn [well_typed in_domain is_str put].
  - unfold assign, set_url_base, url_base_set, run.
    rewrite startswith_any_http. destruct (startswith s "http"); reflexivity.
  - unfold assign, set_preferred_status_origin, preferred_status_origin_set, run.
    destruct (str_in s SUPPORTED_STATUS_ORIGIN); reflexivity.
Qed.

(** X1: an assignment through a setter is accepted exactly when the value
    has the type the attribute asks for and lies in its domain; a value of
    the wrong type raises a type error, a string outside the domain a value
    error; a rejected assignment leaves the instance as it was, and no
    assignment sends a request. *)
Theorem X1_assignment_accepted_or_rejected (a : attribute) (v : value) (w : world) :
  (outcome_of (assign a v) w = Ok tt
   <-> well_typed a v = true /\ in_domain a v = true)
  /\ (well_typed a v = false -> run (assign a v) w = (Raise TypeError, w))
  /\ (well_typed a v = true -> in_domain a v = false ->
      run (assign a v) w = (Raise ValueError, w))
  /\ (forall e, outcome_of (assign a v) w = Raise e -> after (assign a v) w = w)
  /\ sent (after (assign a v) w) = sent w.
Proof.
  unfold outcome_of, after.
  change (assign a v w) with (run (assign a v) w). rewrite assign_run.
  destruct (well_typed a v), (in_domain a v); cbn [fst snd sent];
    repeat split; try tauto; try congruence; try discriminate;
    intros; try discriminate; try tauto.
  all: try (destruct H; discriminate).
Qed.

Lemma read_put_same (a : attribute) (v : value) (w : world) :
  well_typed a v = true ->
  outcome_of (read a) {| self := put a v (self w); sent := sent w |}
  = Ok (match a, v with
        | UrlBase, VStr s => VStr (rstrip_slash s)
        | _, _ => v
        end).
Proof. destruct a, v; try discriminate; reflexivity. Qed.

Lemma read_put_other (a a' : attribute) (v : value) (w : world) :
  a' <> a ->
  outcome_of (read a') {| self := put a v (self w); sent := sent w |}
  = outcome_of (read a') w.
Proof. destruct a, a', v; try congruence; reflexivity. Qed.

(** X2: after an accepted assignment the property reads the assigned value
    back (the URL base without its trailing ['/'] characters), and every
    other property reads what it read before. *)
Theorem X2_assignment_read_back (a : attribute) (v : value) (w : world) :
  outcome_of (assign a v) w = Ok tt ->
  outcome_of (read a) (after (assign a v) w)
  = Ok (match a, v with
        | UrlBase, VStr s => VStr (rstrip_slash s)
        | _, _ => v
        end)
  /\ (forall a', a' <> a ->
        outcome_of (read a') (after (assign a v) w) = outcome_of (read a') w).
Proof.
  unfold outcome_of at 1. unfold after.
  change (assign a v w) with (run (assign a v) w). rewrite assign_run.
  destruct (well_typed a v) eqn:Ht; [|discriminate].
  destruct (in_domain a v); [|discriminate].
  intros _. cbn [snd]. split.
  - apply read_put_same, Ht.
  - intros a' Ha. apply read_put_other, Ha.
Qed.

Lemma X2_assignment_read_back_witness :
  outcome_of (read UrlBase)
    (after (assign UrlBase (VStr "https://api.example.test//")) anonymous_instance)
  = Ok (VStr "https://api.example.test")
  /\ outcome_of (read Timeout)
       (after (assign UrlBase (VStr "https://api.example.test//"))
          anonymous_instance)
     = Ok (VFloat (5 # 2)).
Proof.
  pose proof (X2_assignment_read_back UrlBase (VStr "https://api.example.test//")
                anonymous_instance eq_refl) as [H1 H2].
  split; [exact H1|].
  rewrite (H2 Timeout) by discriminate. reflexivity.
Defined.

(** ** Invariants of an instance *)

Section Invariants.

Variable net : service.
Variable env : environment.

Lemma after_bind_invariant {A B} (P : world -> Prop) (m : M A) (k : A -> M B)
  (w : world) :
  P (after m w) -> (forall a w', P w' -> P (after (k a) w')) ->
  P (after (bind m k) w).
Proof.
  unfold after, bind. intros Hm Hk.
  destruct (m w) as [[a|e] w1]; cbn [snd] in *; [apply Hk, Hm|exact Hm].
Qed.

Lemma guess_url_base_assigns (w : world) :
  exists v, run (guess_and_set_url_base env) w = run (assign UrlBase v) w.
Proof.
  unfold guess_and_set_url_base.
  destruct (CONFIGURATION env) as [cfg|].
  - destruct (collection_url_base cfg); eexists; reflexivity.
  - destruct (PYFUNCEBLE_COLLECTION_API_URL env); eexists; reflexivity.
Qed.

Lemma guess_preferred_status_origin_assigns (w : world) :
  exists v,
    run (guess_and_set_preferred_status_origin env) w
    = run (assign PreferredStatusOrigin v) w.
Proof.
  unfold guess_and_set_preferred_status_origin.
  destruct (CONFIGURATION env) as [cfg|].
  - destruct (collection_preferred_status_origin cfg); eexists; reflexivity.
  - eexists; reflexivity.
Qed.

Lemma guess_timeout_assigns (w : world) :
  exists v, run (guess_and_set_timeout env) w = run (assign Timeout v) w.
Proof.
  unfold guess_and_set_timeout.
  destruct (CONFIGURATION env); eexists; reflexivity.
Qed.

(** A property of the world that assignments, the guess of the generation
    and the bodies of [pull] and [push] keep is kept by every call. *)
Lemma do_call_invariant (P : world -> Prop) :
  (forall a v w, P w -> P (after (assign a v) w)) ->
  (forall w, P w -> P (after (guess_and_set_is_modern_api net) w)) ->
  (forall o w, P w -> P (after (undecorated net o) w)) ->
  forall c w, P w -> P (after (do_call net env c) w).
Proof.
  intros Ha Hg Hb c w Hw. destruct c as [a v|o|]; cbn [do_call].
  - apply Ha, Hw.
  - apply after_bind_invariant; [|intros; exact H].
    assert (He : P (ensured net w)).
    { destruct (_is_modern_api (self w)) as [b|] eqn:E.
      - rewrite (ensured_resolved net w b E). exact Hw.
      - rewrite (ensured_unknown net w E). apply Hg, Hw. }
    destruct (perform_after net o w) as [[_ ->]|[_ ->]];
      [apply Hb, He|exact He].
  - unfold guess_all_settings.
    apply after_bind_invariant; [apply Hg, Hw|intros _ w1 H1].
    apply after_bind_invariant.
    { destruct (guess_preferred_status_origin_assigns w1) as [v Hv].
      unfold after. unfold run in Hv. rewrite Hv. apply Ha, H1. }
    intros _ w2 H2.
    apply after_bind_invariant.
    { destruct (guess_timeout_assigns w2) as [v Hv].
      unfold after. unfold run in Hv. rewrite Hv. apply Ha, H2. }
    intros _ w3 H3.
    destruct (guess_url_base_assigns w3) as [v Hv].
    unfold after. unfold run in Hv. rewrite Hv. apply Ha, H3.
Qed.

Lemma do_calls_invariant (P : world -> Prop) :
  (forall a v w, P w -> P (after (assign a v) w)) ->
  (forall w, P w -> P (after (guess_and_set_is_modern_api net) w)) ->
  (forall o w, P w -> P (after (undecorated net o) w)) ->
  forall cs w, P w -> P (do_calls net env cs w).
Proof.
  intros Ha Hg Hb cs. induction cs as [|c cs IH]; intros w Hw; [exact Hw|].
  cbn [do_calls]. apply IH. apply do_call_invariant; assumption.
Qed.

End Invariants.

Lemma valid_settings_put (a : attribute) (v : value) (c : client) :
  well_typed a v = true -> in_domain a v = true ->
  valid_settings c = true -> valid_settings (put a v c) = true.
Proof.
  unfold valid_settings. intros Ht Hd H.
  apply andb_prop in H. destruct H as [H H3].
  apply andb_prop in H. destruct H as [H1 H2].
  destruct a, v; try discriminate;
    cbn [put _url_base _preferred_status_origin _timeout is_number];
    cbn [in_domain] in Hd;
    rewrite ?H1, ?H2, ?H3, ?Hd; try reflexivity.
  rewrite (rstrip_slash_keeps_http s Hd), rstrip_slash_no_trailing.
  reflexivity.
Qed.

Lemma valid_settings_assign (a : attribute) (v : value) (w : world) :
  valid_settings (self w) = true ->
  valid_settings (self (after (assign a v) w)) = true.
Proof.
  intros H. unfold after.
  change (assign a v w) with (run (assign a v) w). rewrite assign_run.
  destruct (well_typed a v) eqn:Ht; [|exact H].
  destruct (in_domain a v) eqn:Hd; [|exact H].
  apply valid_settings_put; assumption.
Qed.

Lemma undecorated_self (net : service) (o : operation) (w : world) :
  self (after (undecorated net o) w) = self w.
Proof.
  destruct o; [apply posts_only_pull_func|apply posts_only_push_func].
Qed.

Lemma init_invariant (P : world -> Prop) (env : environment)
  (tok url origin tmo : value) (w : world) :
  (forall a v w, P w -> P (after (assign a v) w)) ->
  P w -> P (after (__init__ env tok url origin tmo) w).
Proof.
  intros Ha Hw. unfold __init__.
  apply after_bind_invariant.
  { destruct tok; apply (Ha Token), Hw. }
  intros _ w1 H1. apply after_bind_invariant.
  { destruct url; try apply (Ha UrlBase), H1.
    destruct (guess_url_base_assigns env w1) as [v Hv].
    unfold after. unfold run in Hv. rewrite Hv. apply Ha, H1. }
  intros _ w2 H2. apply after_bind_invariant.
  { destruct origin; try apply (Ha PreferredStatusOrigin), H2.
    destruct (guess_preferred_status_origin_assigns env w2) as [v Hv].
    unfold after. unfold run in Hv. rewrite Hv. apply Ha, H2. }
  intros _ w3 H3.
  destruct tmo; try apply (Ha Timeout), H3.
  destruct (guess_timeout_assigns env w3) as [v Hv].
  unfold after. unfold run in Hv. rewrite Hv. apply Ha, H3.
Qed.

(** X3: the settings of an instance are always sound.  They are sound for
    the class defaults and after [__init__], whatever its arguments and
    whether or not it raised; and from sound settings, every sequence of
    assignments, [pull], [push] and [guess_all_settings] calls, raising or
    not, leaves sound settings: a URL base that begins with [http] and has
    no trailing ['/'], a supported preferred status origin, a numeric
    timeout. *)
Theorem X3_settings_stay_valid (net : service) (env : environment) :
  valid_settings class_defaults = true
  /\ (forall tok url origin tmo,
        valid_settings
          (self (after (__init__ env tok url origin tmo) (fresh class_defaults)))
        = true)
  /\ (forall cs w,
        valid_settings (self w) = true ->
        valid_settings (self (do_calls net env cs w)) = true).
Proof.
  split; [reflexivity|]. split.
  - intros. apply (init_invariant (fun w => valid_settings (self w) = true)).
    + intros a v w. apply valid_settings_assign.
    + reflexivity.
  - intros cs w.
    apply (do_calls_invariant net env (fun w => valid_settings (self w) = true)).
    + intros a v w0. apply valid_settings_assign.
    + intros w0 H. destruct (guess_effect net w0) as [[Hs|[b Hs]] _];
        rewrite Hs; exact H.
    + intros o w0 H. rewrite undecorated_self. exact H.
Qed.

(** ** Where requests go *)

Lemma startswith_http_app (a b : string) :
  startswith a "http" = true -> startswith (a ++ b) "http" = true.
Proof.
  intros H. destruct (startswith_http_inv a H) as [r ->].
  unfold startswith. cbn [append].
  rewrite !prefix_cons, prefix_nil_l. reflexivity.
Qed.

Lemma configured_url (c : client) (path : string) :
  configured c = true ->
  startswith (format_opt_str (_url_base c) ++ path) "http" = true.
Proof.
  unfold configured. destruct (_url_base c) as [u|]; [|discriminate].
  apply startswith_http_app.
Qed.

Lemma http_only_ret {A} (c : client) (a : A) : http_only_at c (ret a).
Proof.
  intros w H. split; [exact H|]. exists []. split; [|reflexivity].
  symmetry. apply app_nil_r.
Qed.

Lemma http_only_raise {A} (c : client) (e : exn) : http_only_at c (@raise A e).
Proof.
  intros w H. split; [exact H|]. exists []. split; [|reflexivity].
  symmetry. apply app_nil_r.
Qed.

Lemma http_only_bind {A B} (c : client) (m : M A) (k : A -> M B) :
  http_only_at c m -> (forall a, http_only_at c (k a)) ->
  http_only_at c (bind m k).
Proof.
  intros Hm Hk w Hw. specialize (Hm w Hw). unfold after, bind in *.
  destruct (m w) as [[a|e] w1]; cbn [snd] in Hm; [|exact Hm].
  destruct Hm as [H1 [l1 [H2 H3]]].
  destruct (Hk a w1 H1) as [H4 [l2 [H5 H6]]]. unfold after in *.
  split; [exact H4|]. exists (l1 ++ l2)%list.
  rewrite H5, H2, app_assoc, forallb_app, H3, H6. auto.
Qed.

Lemma http_only_try_except {A} (c : client) (m h : M A) :
  http_only_at c m -> http_only_at c h -> http_only_at c (try_except m h).
Proof.
  intros Hm Hh w Hw. specialize (Hm w Hw). unfold after, try_except in *.
  destruct (m w) as [[a|[| |e| |cls]] w1]; cbn [snd] in Hm; try exact Hm.
  destruct Hm as [H1 [l1 [H2 H3]]].
  destruct (Hh w1 H1) as [H4 [l2 [H5 H6]]]. unfold after in *.
  split; [exact H4|]. exists (l1 ++ l2)%list.
  rewrite H5, H2, app_assoc, forallb_app, H3, H6. auto.
Qed.

Lemma http_only_get_self {B} (c : client) (k : client -> M B) :
  http_only_at c (k c) -> http_only_at c (bind get_self k).
Proof.
  intros Hk w Hw. specialize (Hk w Hw).
  unfold after, bind, get_self in *. rewrite Hw. exact Hk.
Qed.

Lemma http_only_exchange (net : service) (c : client) u p t :
  startswith u "http" = true ->
  http_only_at c
    (r <- try_except
            (response <- session_post net u p t ;;
             response_json <- response_json response ;;
             if resp_status_code response =? 200
             then ret (Some response_json)
             else ret None)
            (ret None) ;;
     returned_or_none r).
Proof.
  intros Hu. apply http_only_bind.
  - apply http_only_try_except; [|apply http_only_ret].
    apply http_only_bind.
    + intros w Hw. unfold after, session_post, send.
      destruct (net _ _); cbn [snd self sent]; (split; [exact Hw|]);
        exists [mk_request POST u p t]; (split; [reflexivity|]);
        cbn [forallb]; unfold http_url; cbn [req_url];
        rewrite Hu; reflexivity.
    + intros resp. apply http_only_bind.
      * unfold response_json.
        destruct (resp_body resp); [apply http_only_ret|apply http_only_raise].
      * intros j. destruct (_ =? _); apply http_only_ret.
  - intros [v|]; apply http_only_ret.
Qed.

Lemma http_only_push_status (net : service) (c : client) ct data :
  configured c = true -> http_only_at c (__push_status net ct data).
Proof.
  intros Hc. unfold __push_status. apply http_only_get_self.
  destruct (negb (truthy_opt_str _)); [apply http_only_ret|].
  destruct (negb (str_in _ _)); [apply http_only_raise|].
  apply http_only_exchange. unfold push_status_url.
  destruct (truthy_opt_bool _); [destruct (negb _)|];
    apply configured_url, Hc.
Qed.

Lemma http_only_push_whois (net : service) (c : client) data :
  configured c = true -> http_only_at c (__push_whois net data).
Proof.
  intros Hc. unfold __push_whois. apply http_only_get_self.
  destruct (negb (truthy_opt_str _)); [apply http_only_ret|].
  destruct data; try apply http_only_raise;
    apply http_only_exchange; apply configured_url, Hc.
Qed.

Lemma http_only_undecorated (net : service) (c : client) (o : operation) :
  configured c = true -> http_only_at c (undecorated net o).
Proof.
  intros Hc. destruct o as [v|v]; cbn [undecorated].
  - destruct v; try apply http_only_raise.
    unfold pull_func. apply http_only_get_self.
    apply http_only_exchange. unfold pull_url.
    destruct (truthy_opt_bool _); [destruct (truthy_opt_str _)|];
      apply configured_url, Hc.
  - destruct v; try apply http_only_raise.
    unfold push_func.
    destruct (subject st); try apply http_only_raise.
    destruct (checker_type st); try apply http_only_raise.
    destruct (_ =? _)%string; [apply http_only_raise|].
    apply http_only_get_self.
    apply http_only_bind; [|intros _; apply http_only_push_status, Hc].
    destruct (_ && _)%bool; [|apply http_only_ret].
    apply http_only_bind; [apply http_only_push_whois, Hc|intros _].
    apply http_only_ret.
Qed.

Lemma configured_put (a : attribute) (v : value) (c : client) :
  well_typed a v = true -> in_domain a v = true ->
  configured c = true -> configured (put a v c) = true.
Proof.
  unfold configured. intros Ht Hd H.
  destruct a, v; try discriminate; cbn [put _url_base]; try exact H.
  apply rstrip_slash_keeps_http, Hd.
Qed.

(** X4: once the URL base is set, every request an instance sends goes to an
    address that begins with [http]: if that holds of the requests sent so
    far, it holds after every sequence of assignments, [pull], [push] and
    [guess_all_settings] calls, and the URL base stays set. *)
Theorem X4_requests_go_to_http_addresses
  (net : service) (env : environment) (cs : list call) (w : world) :
  configured (self w) = true ->
  forallb http_url (sent w) = true ->
  configured (self (do_calls net env cs w)) = true
  /\ forallb http_url (sent (do_calls net env cs w)) = true.
Proof.
  intros Hc Hs.
  apply (do_calls_invariant net env
           (fun w => configured (self w) = true
                     /\ forallb http_url (sent w) = true)); [| | |auto].
  - intros a v w0 [H1 H2]. unfold after.
    change (assign a v w0) with (run (assign a v) w0). rewrite assign_run.
    destruct (well_typed a v) eqn:Ht; [|auto].
    destruct (in_domain a v) eqn:Hd; [|auto].
    cbn [snd self sent]. split; [apply configured_put; assumption|exact H2].
  - intros w0 [H1 H2]. destruct (guess_effect net w0) as [Hself Hsent].
    split; [destruct Hself as [->|[b ->]]; exact H1|].
    destruct Hsent as [-> | ->]; [exact H2|].
    rewrite forallb_app, H2. cbn [forallb].
    unfold http_url, probe_request. cbn [req_url].
    rewrite (configured_url _ _ H1). reflexivity.
  - intros o w0 [H1 H2].
    destruct (http_only_undecorated net (self w0) o H1 w0 eq_refl)
      as [Hself [l [Hl Hh]]].
    rewrite Hself, Hl, forallb_app, H2, Hh. auto.
Qed.

Lemma X4_requests_go_to_http_addresses_witness :
  configured
    (self (do_calls (always found) bare_environment
             [Perform (Pull (VStr "test.tld"));
              Assign UrlBase (VStr "http://127.0.0.1:8001/");
              Perform (Push (VStatus (dated_status "availability")))]
             token_instance)) = true
  /\ forallb http_url
       (sent (do_calls (always found) bare_environment
                [Perform (Pull (VStr "test.tld"));
                 Assign UrlBase (VStr "http://127.0.0.1:8001/");
                 Perform (Push (VStatus (dated_status "availability")))]
                token_instance)) = true.
Proof.
  apply (X4_requests_go_to_http_addresses (always found) bare_environment
           [Perform (Pull (VStr "test.tld"));
            Assign UrlBase (VStr "http://127.0.0.1:8001/");
            Perform (Push (VStatus (dated_status "availability")))]
           token_instance); reflexivity.
Defined.

(** ** What a call can raise *)

Lemma no_net_error_ret {A} (a : A) : no_net_error (ret a).
Proof. intros w e. discriminate. Qed.

Lemma no_net_error_type_error {A} : no_net_error (@raise A TypeError).
Proof. intros w e. discriminate. Qed.

Lemma no_net_error_value_error {A} : no_net_error (@raise A ValueError).
Proof. intros w e. discriminate. Qed.

Lemma no_net_error_bind {A B} (m : M A) (k : A -> M B) :
  no_net_error m -> (forall a, no_net_error (k a)) -> no_net_error (bind m k).
Proof.
  intros Hm Hk w e. specialize (Hm w e). unfold outcome_of, bind in *.
  destruct (m w) as [[a|e'] w1]; cbn [fst] in *; [apply Hk|].
  intros H. apply Hm. congruence.
Qed.

Lemma no_net_error_try_except {A} (m h : M A) :
  no_net_error h -> no_net_error (try_except m h).
Proof.
  intros Hh w e. unfold outcome_of, try_except.
  destruct (m w) as [[a|[| |e'| |cls]] w1]; cbn [fst]; try discriminate.
  apply Hh.
Qed.

Lemma no_net_error_exchange (net : service) u p t :
  no_net_error
    (r <- try_except
            (response <- session_post net u p t ;;
             response_json <- response_json response ;;
             if resp_status_code response =? 200
             then ret (Some response_json)
             else ret None)
            (ret None) ;;
     returned_or_none r).
Proof.
  apply no_net_error_bind.
  - apply no_net_error_try_except, no_net_error_ret.
  - intros [v|]; apply no_net_error_ret.
Qed.

Lemma no_net_error_get_self : no_net_error get_self.
Proof. intros w e. discriminate. Qed.

Lemma no_net_error_push_status (net : service) ct data :
  no_net_error (__push_status net ct data).
Proof.
  unfold __push_status.
  apply no_net_error_bind; [apply no_net_error_get_self|intros c].
  destruct (negb (truthy_opt_str _)); [apply no_net_error_ret|].
  destruct (negb (str_in _ _)); [apply no_net_error_value_error|].
  apply no_net_error_exchange.
Qed.

Lemma no_net_error_push_whois (net : service) data :
  no_net_error (__push_whois net data).
Proof.
  unfold __push_whois.
  apply no_net_error_bind; [apply no_net_error_get_self|intros c].
  destruct (negb (truthy_opt_str _)); [apply no_net_error_ret|].
  destruct data; try apply no_net_error_type_error;
    apply no_net_error_exchange.
Qed.

Lemma no_net_error_undecorated (net : service) (o : operation) :
  no_net_error (undecorated net o).
Proof.
  destruct o as [v|v]; cbn [undecorated].
  - destruct v; try apply no_net_error_type_error.
    unfold pull_func.
    apply no_net_error_bind; [apply no_net_error_get_self|intros c].
    apply no_net_error_exchange.
  - destruct v; try apply no_net_error_type_error.
    unfold push_func.
    destruct (subject st); try apply no_net_error_type_error.
    destruct (checker_type st); try apply no_net_error_type_error.
    destruct (_ =? _)%string; [apply no_net_error_value_error|].
    apply no_net_error_bind; [apply no_net_error_get_self|intros c].
    apply no_net_error_bind; [|intros _; apply no_net_error_push_status].
    destruct (_ && _)%bool; [|apply no_net_error_ret].
    apply no_net_error_bind; [apply no_net_error_push_whois|intros _].
    apply no_net_error_ret.
Qed.

Lemma no_net_error_guess (net : service) :
  no_net_error (guess_and_set_is_modern_api net).
Proof.
  intros w e H. apply guess_raises_uncaught in H. discriminate.
Qed.

Lemma no_net_error_ensure {A} (net : service) (func : M A) :
  no_net_error func -> no_net_error (ensure_is_modern_api_is_set net func).
Proof.
  intros Hf. unfold ensure_is_modern_api_is_set.
  apply no_net_error_bind; [apply no_net_error_get_self|intros c].
  apply no_net_error_bind; [|intros _; exact Hf].
  destruct (_is_modern_api c); [apply no_net_error_ret|apply no_net_error_guess].
Qed.

Lemma no_net_error_perform (net : service) (o : operation) :
  no_net_error (perform net o).
Proof.
  destruct o as [v|v]; cbn [perform]; unfold pull, push;
    apply no_net_error_ensure.
  - apply (no_net_error_undecorated net (Pull v)).
  - apply (no_net_error_undecorated net (Push v)).
Qed.

Lemma no_net_error_assign (a : attribute) (v : value) :
  no_net_error (assign a v).
Proof.
  intros w e. unfold outcome_of.
  change (assign a v w) with (run (assign a v) w). rewrite assign_run.
  destruct (well_typed a v), (in_domain a v); discriminate.
Qed.

Lemma no_net_error_guess_all_settings (net : service) (env : environment) :
  no_net_error (guess_all_settings net env).
Proof.
  unfold guess_all_settings.
  apply no_net_error_bind; [apply no_net_error_guess|intros _].
  apply no_net_error_bind.
  { intros w e. destruct (guess_preferred_status_origin_assigns env w) as [v Hv].
    unfold outcome_of. unfold run in Hv. rewrite Hv. apply no_net_error_assign. }
  intros _. apply no_net_error_bind.
  { intros w e. destruct (guess_timeout_assigns env w) as [v Hv].
    unfold outcome_of. unfold run in Hv. rewrite Hv. apply no_net_error_assign. }
  intros _ w e. destruct (guess_url_base_assigns env w) as [v Hv].
  unfold outcome_of. unfold run in Hv. rewrite Hv. apply no_net_error_assign.
Qed.

(** *** When the calls of the session are harmless *)

Lemma soft_settles (o : outcome) : soft o = true -> settles o = true.
Proof. destruct o as [code [j|e]|e]; cbn [soft settles]; auto. Qed.

Lemma exchange_not_soft (o : outcome) :
  soft o = false -> exists e, exchange_result o = Raise e.
Proof.
  destruct o as [code [j|e]|e]; cbn [soft exchange_result]; intros H;
    try discriminate; rewrite H; eexists; reflexivity.
Qed.

Lemma calm_head (net : service) (w w' : world) (r : request) (l : list request) :
  calm net w w' -> sent w' = (sent w ++ r :: l)%list ->
  harmless r (net (sent w) r) = true.
Proof.
  intros H E. specialize (H [] r l). cbn [app] in H.
  rewrite app_nil_r in H. apply H, E.
Qed.

Lemma calm_from (net : service) (w w1 w' : world) (l : list request) :
  calm net w w' -> sent w1 = (sent w ++ l)%list -> calm net w1 w'.
Proof.
  intros H E l1 r l2 E'. rewrite E in *. rewrite <- app_assoc in *.
  apply (H (l ++ l1)%list r l2). rewrite <- app_assoc. exact E'.
Qed.

Lemma ensured_sent (net : service) (w : world) :
  exists l, sent (ensured net w) = (sent w ++ l)%list.
Proof.
  destruct (_is_modern_api (self w)) as [b|] eqn:H.
  - rewrite (ensured_resolved net w b H). exists []. symmetry. apply app_nil_r.
  - rewrite (ensured_unknown net w H).
    destruct (guess_effect net w) as [_ [->| ->]].
    + exists []. symmetry. apply app_nil_r.
    + eexists. reflexivity.
Qed.

(** When the calls of a [pull] or a [push] are harmless, the guess of the
    decorator, if any, returns. *)
Lemma calm_guessed (net : service) (o : operation) (w : world) :
  calm net w (after (perform net o) w) -> guessed net w.
Proof.
  intros H. destruct (_is_modern_api (self w)) as [b|] eqn:Hg.
  { apply (guessed_if_resolved net w b Hg). }
  destruct (guess_cases net w) as [[Ht _]|[(_ & Hs & _)|(e & Ht & Ho & He & _)]].
  - apply guessed_if_no_token, Ht.
  - apply guessed_if_settles, Hs.
  - destruct (perform_after net o w) as [[Hgd _]|[_ Ha]]; [exact Hgd|].
    rewrite Ha, (ensured_unknown_crashes net w e Hg Ht Ho He) in H.
    pose proof (calm_head net w _ (probe_request (self w)) [] H eq_refl) as Hh.
    change (settles (net (sent w) (probe_request (self w))) = true) in Hh.
    rewrite Ho in Hh. cbn [settles] in Hh. congruence.
Qed.

Lemma calm_ensured (net : service) (o : operation) (w : world) :
  calm net w (after (perform net o) w) ->
  calm net (ensured net w) (after (undecorated net o) (ensured net w)).
Proof.
  intros H. pose proof (calm_guessed net o w H) as Hg.
  destruct (ensured_sent net w) as [l Hl].
  apply (calm_from net w _ _ l); [|exact Hl].
  unfold after in *. change (perform net o w) with (run (perform net o) w) in H.
  rewrite perform_run in H by exact Hg. exact H.
Qed.

Lemma ensured_token (net : service) (w : world) :
  truthy_opt_str (_token (self (ensured net w)))
  = truthy_opt_str (_token (self w)).
Proof. destruct (ensured_spec net w) as (H & _). rewrite H. reflexivity. Qed.

Lemma push_whois_self (net : service) (data : value) (w : world) :
  self (after (__push_whois net data) w) = self w.
Proof. apply posts_only_push_whois. Qed.

(** The world in which [push] makes its status submission has the token of
    the instance. *)
Lemma push_status_world_token
  (net : service) (w : world) (st : checker_status) (c : bool) :
  truthy_opt_str
    (_token (self (if c
                   then after (__push_whois net (VStatus st)) (ensured net w)
                   else ensured net w)))
  = truthy_opt_str (_token (self w)).
Proof.
  destruct c; [rewrite push_whois_self|]; apply ensured_token.
Qed.

(** When the calls of the body of [push] are harmless, its WHOIS submission,
    if any, is [soft]. *)
Lemma push_func_calm_whois
  (net : service) (w : world) (st : checker_status) (subj ct : string) :
  subject st = VStr subj -> subj <> "" -> checker_type st = VStr ct ->
  calm net w (after (push_func net (VStatus st)) w) ->
  negb (truthy_opt_bool (_is_modern_api (self w))) && has_expiration_date st
  = true ->
  has_token (self w) ->
  soft (net (sent w) (whois_request (self w) st)) = true.
Proof.
  intros Hs Hne Hct Hc Hd Ht.
  destruct (soft (net (sent w) (whois_request (self w) st))) eqn:Hsoft;
    [reflexivity|exfalso].
  destruct (exchange_not_soft _ Hsoft) as [e He].
  unfold after in Hc.
  change (push_func net (VStatus st) w)
    with (run (push_func net (VStatus st)) w) in Hc.
  rewrite (push_func_whois_raises net w st subj ct e Hs Hne Hct Hd) in Hc.
  - unfold after in Hc.
    change (__push_whois net (VStatus st) w)
      with (run (__push_whois net (VStatus st)) w) in Hc.
    rewrite push_whois_status in Hc by exact Ht. cbn [snd] in Hc.
    pose proof (calm_head net w _ (whois_request (self w) st) [] Hc eq_refl)
      as Hh.
    change (soft (net (sent w) (whois_request (self w) st)) = true) in Hh.
    congruence.
  - unfold outcome_of.
    change (__push_whois net (VStatus st) w)
      with (run (__push_whois net (VStatus st)) w).
    rewrite push_whois_status by exact Ht. exact He.
Qed.

(** The four ways the body of [push] ends, when its calls are harmless. *)
Lemma push_func_classify (net : service) (v : value) (w : world) :
  calm net w (after (push_func net v) w) ->
  (is_status v = false /\ outcome_of (push_func net v) w = Raise TypeError)
  \/ (exists st, v = VStatus st
        /\ (is_str (subject st) = false \/ is_str (checker_type st) = false)
        /\ outcome_of (push_func net v) w = Raise TypeError)
  \/ (exists st subj ct, v = VStatus st
        /\ subject st = VStr subj /\ checker_type st = VStr ct
        /\ (subj = ""
            \/ (subj <> "" /\ has_token (self w)
                /\ str_in (lower ct) SUPPORTED_CHECKERS = false))
        /\ outcome_of (push_func net v) w = Raise ValueError)
  \/ (exists st subj ct r, v = VStatus st
        /\ subject st = VStr subj /\ subj <> "" /\ checker_type st = VStr ct
        /\ (no_token (self w) \/ str_in (lower ct) SUPPORTED_CHECKERS = true)
        /\ outcome_of (push_func net v) w = Ok r).
Proof.
  intros Hcalm. unfold outcome_of.
  change (push_func net v w) with (run (push_func net v) w).
  destruct (is_status v) eqn:Hv.
  2:{ left. split; [reflexivity|].
      rewrite push_func_not_status by assumption. reflexivity. }
  destruct v; try discriminate. right.
  destruct (is_str (subject st)) eqn:Hs.
  2:{ left. exists st. split; [reflexivity|]. split; [auto|].
      rewrite push_func_not_str by auto. reflexivity. }
  destruct (is_str (checker_type st)) eqn:Hc.
  2:{ left. exists st. split; [reflexivity|]. split; [auto|].
      rewrite push_func_not_str by auto. reflexivity. }
  right.
  destruct (subject st) as [| | | |subj| | | |] eqn:Es; try discriminate.
  destruct (checker_type st) as [| | | |ct| | | |] eqn:Ec; try discriminate.
  destruct (String.eqb_spec subj "") as [->|Hne].
  { left. exists st, "", ct. repeat (split; [first [reflexivity|assumption|auto]|]).
    rewrite push_func_empty_subject; try reflexivity.
    - exact Es.
    - rewrite Ec. reflexivity. }
  assert (Hw : negb (truthy_opt_bool (_is_modern_api (self w)))
               && has_expiration_date st = true ->
               has_token (self w) ->
               soft (net (sent w) (whois_request (self w) st)) = true).
  { intros Hd Ht.
    apply (push_func_calm_whois net w st subj ct); assumption. }
  unfold after in Hcalm.
  change (push_func net (VStatus st) w)
    with (run (push_func net (VStatus st)) w) in Hcalm.
  rewrite (push_func_valid net w st subj ct Es Hne Ec Hw) in *.
  set (c := (negb _ && _)%bool) in *.
  set (w2 := if c then after (__push_whois net (VStatus st)) w else w) in *.
  assert (Hself : self w2 = self w).
  { subst w2. destruct c; [apply push_whois_self|reflexivity]. }
  destruct (truthy_opt_str (_token (self w))) eqn:Ht.
  - assert (Ht2 : has_token (self w2)) by (unfold has_token; rewrite Hself; exact Ht).
    destruct (str_in (lower ct) SUPPORTED_CHECKERS) eqn:Hsup.
    + right. exists st, subj, ct. eexists.
      repeat (split; [first [reflexivity|assumption|auto]|]).
      rewrite push_status_supported in * by assumption. cbn [fst snd] in *.
      apply exchange_soft.
      assert (Hl : exists l, sent w2 = (sent w ++ l)%list).
      { subst w2. destruct c.
        - unfold after.
          change (__push_whois net (VStatus st) w)
            with (run (__push_whois net (VStatus st)) w).
          rewrite push_whois_status by exact Ht. eexists. reflexivity.
        - exists []. symmetry. apply app_nil_r. }
      destruct Hl as [l Hl].
      pose proof (calm_from net w w2 _ l Hcalm Hl) as Hc2.
      apply (calm_head net w2 _ _ [] Hc2 eq_refl).
    + left. exists st, subj, ct.
      repeat (split; [first [reflexivity|assumption|auto]|]).
      rewrite push_status_unsupported by assumption. reflexivity.
  - assert (Ht2 : no_token (self w2)) by (unfold no_token; rewrite Hself; exact Ht).
    right. exists st, subj, ct. eexists.
    repeat (split; [first [reflexivity|assumption|auto]|]).
    rewrite push_status_no_token by assumption. reflexivity.
Qed.

(** The four ways a call of [push] ends, when its calls are harmless. *)
Lemma push_classify (net : service) (v : value) (w : world) :
  calm net w (after (push net v) w) ->
  (is_status v = false /\ outcome_of (push net v) w = Raise TypeError)
  \/ (exists st, v = VStatus st
        /\ (is_str (subject st) = false \/ is_str (checker_type st) = false)
        /\ outcome_of (push net v) w = Raise TypeError)
  \/ (exists st subj ct, v = VStatus st
        /\ subject st = VStr subj /\ checker_type st = VStr ct
        /\ (subj = ""
            \/ (subj <> "" /\ has_token (self w)
                /\ str_in (lower ct) SUPPORTED_CHECKERS = false))
        /\ outcome_of (push net v) w = Raise ValueError)
  \/ (exists st subj ct r, v = VStatus st
        /\ subject st = VStr subj /\ subj <> "" /\ checker_type st = VStr ct
        /\ (no_token (self w) \/ str_in (lower ct) SUPPORTED_CHECKERS = true)
        /\ outcome_of (push net v) w = Ok r).
Proof.
  intros Hcalm.
  pose proof (calm_guessed net (Push v) w Hcalm) as Hg.
  pose proof (calm_ensured net (Push v) w Hcalm) as Hc1.
  cbn [undecorated] in Hc1.
  assert (E : outcome_of (push net v) w
              = outcome_of (push_func net v) (ensured net w)).
  { unfold outcome_of. change (push net v w) with (run (push net v) w).
    unfold push. rewrite ensure_run by exact Hg. reflexivity. }
  rewrite E. pose proof (push_func_classify net v (ensured net w) Hc1) as H.
  unfold has_token, no_token in *. rewrite ensured_token in H. exact H.
Qed.

(** What leaves [pull], when its calls are harmless. *)
Lemma pull_calm (net : service) (v : value) (w : world) (e : exn) :
  calm net w (after (pull net v) w) ->
  outcome_of (pull net v) w = Raise e -> e = TypeError /\ is_str v = false.
Proof.
  intros Hcalm H.
  pose proof (calm_guessed net (Pull v) w Hcalm) as Hg.
  pose proof (calm_ensured net (Pull v) w Hcalm) as Hc1.
  cbn [undecorated] in Hc1.
  unfold outcome_of in H. change (pull net v w) with (run (pull net v) w) in H.
  unfold pull in H. rewrite ensure_run in H by exact Hg.
  destruct (is_str v) eqn:Hv.
  - destruct v; try discriminate.
    unfold after in Hc1.
    change (pull_func net (VStr s) (ensured net w))
      with (run (pull_func net (VStr s)) (ensured net w)) in Hc1.
    rewrite pull_func_str in H, Hc1. cbn [fst snd] in H, Hc1.
    pose proof (calm_head net (ensured net w) _ _ [] Hc1 eq_refl) as Hh.
    change (soft (net (sent (ensured net w))
                    (pull_request (self (ensured net w)) s)) = true) in Hh.
    rewrite exchange_soft in H by exact Hh. discriminate.
  - rewrite pull_func_not_str in H by exact Hv.
    cbn [fst] in H. injection H as <-. auto.
Qed.

(** X5: no call raises an exception of the two classes the methods catch,
    whatever the service does: a [RequestException] or a [JSONDecodeError]
    never leaves an assignment, a [pull], a [push] or [guess_all_settings].
    When the calls of the session made during a [pull] or a [push] are
    harmless (the call and, for a POST, [response.json()] on its answer
    raise nothing but these two classes), [pull] raises nothing but a type
    error, and only for a subject that is not a string, and [push] raises
    nothing but a type error or a value error. *)
Theorem X5_no_network_exception_escapes (net : service) (env : environment) :
  (forall c w e, outcome_of (do_call net env c) w <> Raise (NetError e))
  /\ (forall v w e,
        calm net w (after (pull net v) w) ->
        outcome_of (pull net v) w = Raise e -> e = TypeError /\ is_str v = false)
  /\ (forall v w e,
        calm net w (after (push net v) w) ->
        outcome_of (push net v) w = Raise e -> e = TypeError \/ e = ValueError).
Proof.
  split.
  { intros c. destruct c as [a v|o|]; cbn [do_call].
    - apply no_net_error_assign.
    - apply no_net_error_bind; [apply no_net_error_perform|].
      intros. apply no_net_error_ret.
    - apply no_net_error_guess_all_settings. }
  split.
  - intros v w e. apply pull_calm.
  - intros v w e Hcalm H.
    destruct (push_classify net v w Hcalm)
      as [[_ Hr]|[(st & _ & _ & Hr)|[(st & subj & ct & _ & _ & _ & _ & Hr)
                                     |(st & subj & ct & r & _ & _ & _ & _ & _ & Hr)]]];
      rewrite Hr in H; try discriminate; injection H as <-; auto.
Qed.

(** ** Routing *)




(** X7: a generation assigned through [set_is_modern_api] is used as it is.
    After the assignment of a boolean, [pull] of a string sends no probe and
    exactly one POST: to [{url_base}/v1/subject/search] for [False]; for
    [True], to [{url_base}/v1/aggregation/subject/search] with a token and to
    [{url_base}/v1/hub/aggregation/subject/search] without one. *)
Theorem X7_assigned_generation_routes_pull
  (net : service) (w : world) (b : bool) (s : string) :
  let base := format_opt_str (_url_base (self w)) in
  let path :=
    if b
    then if truthy_opt_str (_token (self w))
         then "/v1/aggregation/subject/search"
         else "/v1/hub/aggregation/subject/search"
    else "/v1/subject/search" in
  sent (after (pull net (VStr s)) (after (set_is_modern_api (VBool b)) w))
  = (sent w
     ++ [mk_request POST (base ++ path)
           (JsonPayload (VDict [("subject", VStr s)])) (_timeout (self w))])%list.
Proof.
  cbv zeta. unfold after at 1.
  change (pull net (VStr s) ?x) with (run (pull net (VStr s)) x).
  rewrite pull_str by (apply (guessed_if_resolved net _ b); reflexivity).
  rewrite (ensured_resolved net _ b) by reflexivity.
  cbn [snd]. unfold after, set_is_modern_api, is_modern_api_set, modify_self.
  cbn [snd sent self]. unfold pull_request, pull_url.
  cbn [_is_modern_api truthy_opt_bool _token _url_base _timeout].
  destruct b; [destruct (truthy_opt_str _)|]; reflexivity.
Qed.

(** ** Submission, in full *)

(** X8: [push] checks the checker type after the WHOIS submission.  With a
    token, under LEGACY generation, for a record that passes the checks of
    [push] and has a truthy expiration date but a checker type that is not
    supported: when the WHOIS call and [response.json()] on its answer raise
    nothing but the exceptions the method catches, [push] raises a value
    error after it has sent the WHOIS request; when one of them raises an
    exception of another class, [push] raises that exception instead, the
    WHOIS request being the only one sent.  When there is no WHOIS submission
    to make (MODERN generation, or no expiration date) [push] raises the
    value error without sending anything. *)
Theorem X8_push_unsupported_checker_type
  (net : service) (w : world) (st : checker_status) (subj ct : string) :
  has_token (self w) ->
  subject st = VStr subj -> subj <> "" -> checker_type st = VStr ct ->
  str_in (lower ct) SUPPORTED_CHECKERS = false ->
  let whois :=
    mk_request POST (format_opt_str (_url_base (self w)) ++ "/v1/status/whois")
      (JsonPayload (VDict (to_dict st))) (_timeout (self w)) in
  (api_generation (self w) = LEGACY -> has_expiration_date st = true ->
   soft (net (sent w) whois) = true ->
   run (push net (VStatus st)) w
   = (Raise ValueError, {| self := self w; sent := sent w ++ [whois] |}))
  /\ (api_generation (self w) = LEGACY -> has_expiration_date st = true ->
      forall e, caught e = false ->
      net (sent w) whois = Raised e
      \/ (exists code, net (sent w) whois = Responded code (Raise e)) ->
      run (push net (VStatus st)) w
      = (Raise e, {| self := self w; sent := sent w ++ [whois] |}))
  /\ (api_generation (self w) = MODERN \/
      (api_generation (self w) = LEGACY /\ has_expiration_date st = false) ->
      run (push net (VStatus st)) w = (Raise ValueError, w)).
Proof.
  intros Ht Hs Hne Hct Hu whois.
  change whois with (whois_request (self w) st).
  split; [|split].
  - intros Hg He Hsoft. apply legacy_inv in Hg.
    rewrite (push_valid net w st subj ct (guessed_if_resolved net w false Hg)
               Hs Hne Hct);
      [|rewrite (ensured_resolved net w false Hg); intros _ _; exact Hsoft].
    rewrite (ensured_resolved net w false Hg), Hg, He.
    cbn [truthy_opt_bool negb andb]. unfold after.
    change (__push_whois net (VStatus st) w)
      with (run (__push_whois net (VStatus st)) w).
    rewrite push_whois_status by exact Ht. cbn [snd].
    rewrite push_status_unsupported by assumption. reflexivity.
  - intros Hg He e Hc Ho. apply legacy_inv in Hg.
    unfold push. rewrite (ensure_resolved net _ w false Hg).
    rewrite (push_func_whois_raises net w st subj ct e Hs Hne Hct).
    + unfold after.
      change (__push_whois net (VStatus st) w)
        with (run (__push_whois net (VStatus st)) w).
      rewrite push_whois_status by exact Ht. reflexivity.
    + rewrite Hg, He. reflexivity.
    + unfold outcome_of.
      change (__push_whois net (VStatus st) w)
        with (run (__push_whois net (VStatus st)) w).
      rewrite push_whois_status by exact Ht. cbn [fst].
      apply exchange_crash; assumption.
  - intros [Hg|[Hg He]].
    + apply modern_inv in Hg.
      rewrite (push_valid net w st subj ct (guessed_if_resolved net w true Hg)
                 Hs Hne Hct);
        [|rewrite (ensured_resolved net w true Hg), Hg; discriminate].
      rewrite (ensured_resolved net w true Hg), Hg.
      cbn [truthy_opt_bool negb andb].
      apply push_status_unsupported; assumption.
    + apply legacy_inv in Hg.
      apply (push_unsupported_with_token net w st subj ct false); assumption.
Qed.

Lemma X8_push_unsupported_checker_type_witness :
  run (push (always found) (VStatus (dated_status "bogus"))) legacy_token_instance
  = (Raise ValueError,
     {| self := self legacy_token_instance;
        sent := sent legacy_token_instance
                ++ [mk_request POST "https://api.example.test/v1/status/whois"
                      (JsonPayload (VDict [("subject", VStr "example.org")]))
                      (VFloat (5 # 2))] |}).
Proof.
  refine (proj1 (X8_push_unsupported_checker_type (always found)
                   legacy_token_instance (dated_status "bogus")
                   "example.org" "bogus" _ _ _ _ _) _ _ _);
    try reflexivity.
  discriminate.
Defined.

(** X9: [push] with a token, in full.  For a record that passes the checks
    of [push] and has a supported checker type, under a resolved generation,
    [push] leaves the instance as it is.  A WHOIS submission is due when the
    generation is LEGACY and the expiration date is truthy, and not
    otherwise.  When none is due, or when the WHOIS call and
    [response.json()] on its answer raise nothing but the exceptions the
    method catches, [push] sends the WHOIS request if due and then the status
    request: to [{url_base}/v1/status/{checker_type}], lower-cased, under
    LEGACY and to [{url_base}/v1/contracts/self-delivery] under MODERN, with
    the result of [to_json()] as [data]; what it gives depends on the answer
    to the status request only: the parsed body for status 200; [None] for
    another status, a [JSONDecodeError] or a [RequestException]; and an
    exception of another class as it is.  When the WHOIS submission is due
    and raises an exception of another class, [push] raises it and sends no
    status request. *)
Theorem X9_push_with_token
  (net : service) (w : world) (st : checker_status) (subj ct : string)
  (b : bool) :
  has_token (self w) -> _is_modern_api (self w) = Some b ->
  subject st = VStr subj -> subj <> "" -> checker_type st = VStr ct ->
  str_in (lower ct) SUPPORTED_CHECKERS = true ->
  let base := format_opt_str (_url_base (self w)) in
  let tmo := _timeout (self w) in
  let due := negb b && has_expiration_date st in
  let whois :=
    mk_request POST (base ++ "/v1/status/whois")
      (JsonPayload (VDict (to_dict st))) tmo in
  let status :=
    mk_request POST
      (base ++ (if b then "/v1/contracts/self-delivery"
                else "/v1/status/" ++ lower ct))
      (DataPayload (VStr (to_json st))) tmo in
  let o := net (sent w ++ (if due then [whois] else []))%list status in
  let r := outcome_of (push net (VStatus st)) w in
  ((due = true -> soft (net (sent w) whois) = true) ->
   after (push net (VStatus st)) w
   = {| self := self w;
        sent := sent w ++ (if due then [whois] else []) ++ [status] |}
   /\ (forall j, o = Responded 200 (Ok j) -> r = Ok j)
   /\ (forall code j, o = Responded code (Ok j) -> code <> 200 -> r = Ok VNone)
   /\ (forall code e, o = Responded code (Raise (NetError e)) -> r = Ok VNone)
   /\ (forall e, o = Failed e -> r = Ok VNone)
   /\ (forall e, caught e = false ->
         o = Raised e \/ (exists code, o = Responded code (Raise e)) ->
         r = Raise e))
  /\ (due = true ->
      forall e, caught e = false ->
      net (sent w) whois = Raised e
      \/ (exists code, net (sent w) whois = Responded code (Raise e)) ->
      run (push net (VStatus st)) w
      = (Raise e, {| self := self w; sent := sent w ++ [whois] |})).
Proof.
  intros Ht Hg Hs Hne Hct Hsup base tmo due whois status o r.
  change whois with (whois_request (self w) st) in *.
  split.
  - intros Hsoft.
    assert (Hrun : run (push net (VStatus st)) w
                   = (exchange_result o,
                      {| self := self w;
                         sent := sent w
                                 ++ (if due then [whois_request (self w) st]
                                     else [])
                                 ++ [status] |})).
    { rewrite (push_valid net w st subj ct (guessed_if_resolved net w b Hg)
                 Hs Hne Hct);
        [|rewrite (ensured_resolved net w b Hg), Hg; cbn [truthy_opt_bool];
          intros Hd _; apply Hsoft, Hd].
      rewrite (ensured_resolved net w b Hg), Hg. cbn [truthy_opt_bool].
      subst o. fold due. destruct due eqn:Hw.
      - unfold after.
        change (__push_whois net (VStatus st) w)
          with (run (__push_whois net (VStatus st)) w).
        rewrite push_whois_status by exact Ht. cbn [snd].
        rewrite push_status_supported by assumption.
        cbn [self sent]. rewrite <- app_assoc.
        unfold push_status_url, push_status_payload.
        rewrite Hg. cbn [truthy_opt_bool].
        unfold has_token in Ht. rewrite Ht. cbn [negb].
        subst status base tmo. destruct b; reflexivity.
      - rewrite push_status_supported by assumption.
        rewrite app_nil_r. cbn [app].
        unfold push_status_url, push_status_payload.
        rewrite Hg. cbn [truthy_opt_bool].
        unfold has_token in Ht. rewrite Ht. cbn [negb].
        subst status base tmo. destruct b; reflexivity. }
    subst r. unfold outcome_of, after.
    change (push net (VStatus st) w) with (run (push net (VStatus st)) w).
    rewrite Hrun. cbn [fst snd].
    split; [reflexivity|].
    split; [intros j ->; reflexivity|].
    split.
    { intros code j -> Hc. cbn [exchange_result].
      destruct (Z.eqb_spec code 200); [contradiction|reflexivity]. }
    split; [intros code e ->; reflexivity|].
    split; [intros e ->; reflexivity|].
    intros e He Ho. apply exchange_crash; assumption.
  - intros Hd e He Ho.
    unfold push. rewrite (ensure_resolved net _ w b Hg).
    rewrite (push_func_whois_raises net w st subj ct e Hs Hne Hct).
    + unfold after.
      change (__push_whois net (VStatus st) w)
        with (run (__push_whois net (VStatus st)) w).
      rewrite push_whois_status by exact Ht. reflexivity.
    + rewrite Hg. exact Hd.
    + unfold outcome_of.
      change (__push_whois net (VStatus st) w)
        with (run (__push_whois net (VStatus st)) w).
      rewrite push_whois_status by exact Ht. cbn [fst].
      apply exchange_crash; assumption.
Qed.

Lemma X9_push_with_token_witness :
  after (push (always (Responded 500 not_json))
           (VStatus (dated_status "Availability")))
    legacy_token_instance
  = {| self := self legacy_token_instance;
       sent := sent legacy_token_instance
               ++ [mk_request POST "https://api.example.test/v1/status/whois"
                     (JsonPayload (VDict [("subject", VStr "example.org")]))
                     (VFloat (5 # 2));
                   mk_request POST
                     "https://api.example.test/v1/status/availability"
                     (DataPayload (VStr "{}")) (VFloat (5 # 2))] |}
  /\ outcome_of (push (always (Responded 500 not_json))
                   (VStatus (dated_status "Availability")))
       legacy_token_instance
     = Ok VNone.
Proof.
  pose proof (X9_push_with_token (always (Responded 500 not_json))
                legacy_token_instance (dated_status "Availability")
                "example.org" "Availability" false) as H.
  destruct H as [H _]; try reflexivity; try discriminate.
  destruct (H (fun _ => eq_refl)) as (H1 & _ & _ & H2 & _).
  split; [exact H1|exact (H2 500 JSONDecodeError eq_refl)].
Defined.

(** *** On a session that refuses what the library refuses *)

(** Under LEGACY generation and with a token, [push] of a record whose
    [to_dict()] holds a [datetime] raises the type error of the WHOIS call
    and makes no status submission. *)
Example push_of_timed_status :
  run (push (strict (always found)) (VStatus timed_status)) legacy_token_instance
  = (Raise TypeError,
     {| self := self legacy_token_instance;
        sent := sent legacy_token_instance
                ++ [mk_request POST "https://api.example.test/v1/status/whois"
                      (JsonPayload (VDict (to_dict timed_status)))
                      (VFloat (5 # 2))] |}).
Proof. reflexivity. Qed.

(** With the timeout 0 and a token, the probe raises a value error: [pull]
    raises it, the generation stays UNKNOWN, and the next call probes
    again. *)
Example pull_with_refused_timeout :
  outcome_of (pull (strict (always found)) (VStr "test.tld")) hasty_instance
  = Raise ValueError
  /\ api_generation
       (self (after (pull (strict (always found)) (VStr "test.tld"))
                hasty_instance))
     = UNKNOWN
  /\ probes
       (sent (perform_all (strict (always found))
                [Pull (VStr "test.tld"); Pull (VStr "test.tld")]
                hasty_instance))
     = 2%nat.
Proof. repeat split. Qed.

(** ** Construction, in full *)

Lemma guess_url_base_run (env : environment) (w : world) :
  guess_and_set_url_base env w = assign UrlBase (guessed_url_base env) w.
Proof.
  unfold guess_and_set_url_base, guessed_url_base.
  destruct (CONFIGURATION env) as [cfg|].
  - destruct (collection_url_base cfg); reflexivity.
  - destruct (PYFUNCEBLE_COLLECTION_API_URL env); reflexivity.
Qed.

Lemma guess_preferred_status_origin_run (env : environment) (w : world) :
  guess_and_set_preferred_status_origin env w
  = assign PreferredStatusOrigin (guessed_preferred_status_origin env) w.
Proof.
  unfold guess_and_set_preferred_status_origin, guessed_preferred_status_origin.
  destruct (CONFIGURATION env) as [cfg|]; [|reflexivity].
  destruct (collection_preferred_status_origin cfg); reflexivity.
Qed.

Lemma guess_timeout_run (env : environment) (w : world) :
  guess_and_set_timeout env w = assign Timeout (guessed_timeout env) w.
Proof.
  unfold guess_and_set_timeout, guessed_timeout.
  destruct (CONFIGURATION env); reflexivity.
Qed.

Lemma bind_ext {A B} (m m' : M A) (k k' : A -> M B) (w : world) :
  (forall w0, m w0 = m' w0) -> (forall a w0, k a w0 = k' a w0) ->
  bind m k w = bind m' k' w.
Proof.
  intros Hm Hk. unfold bind. rewrite Hm.
  destruct (m' w) as [[a|e] w1]; [apply Hk|reflexivity].
Qed.

(** [__init__] is four assignments, in the order token, URL base, preferred
    status origin, timeout. *)
Lemma init_run (env : environment) (tok url origin tmo : value) (w : world) :
  __init__ env tok url origin tmo w
  = (assign Token (effective tok (guessed_token env)) ;;;
     assign UrlBase (effective url (guessed_url_base env)) ;;;
     assign PreferredStatusOrigin
       (effective origin (guessed_preferred_status_origin env)) ;;;
     assign Timeout (effective tmo (guessed_timeout env))) w.
Proof.
  unfold __init__. apply bind_ext.
  { intros w0. destruct tok; reflexivity. }
  intros _ w1. apply bind_ext.
  { intros w0. destruct url; try reflexivity. apply guess_url_base_run. }
  intros _ w2. apply bind_ext.
  { intros w0. destruct origin; try reflexivity.
    apply guess_preferred_status_origin_run. }
  intros _ w3. destruct tmo; try reflexivity. apply guess_timeout_run.
Qed.

Lemma assign_ok (a : attribute) (v : value) (w w' : world) :
  assign a v w = (Ok tt, w') ->
  well_typed a v = true /\ in_domain a v = true
  /\ w' = {| self := put a v (self w); sent := sent w |}.
Proof.
  change (assign a v w) with (run (assign a v) w). rewrite assign_run.
  destruct (well_typed a v); [|discriminate].
  destruct (in_domain a v); [|discriminate].
  intros H. injection H as <-. auto.
Qed.

Lemma bind_ok {A B} (m : M A) (k : A -> M B) (w w' : world) (b : B) :
  bind m k w = (Ok b, w') ->
  exists a w1, m w = (Ok a, w1) /\ k a w1 = (Ok b, w').
Proof.
  unfold bind. destruct (m w) as [[a|e] w1]; [|discriminate].
  intros H. exists a, w1. auto.
Qed.

(** The instance a successful construction gives. *)
Lemma init_success (env : environment) (tok url origin tmo : value) (w : world) :
  run (__init__ env tok url origin tmo) (fresh class_defaults) = (Ok tt, w) ->
  exists s u o,
    effective tok (guessed_token env) = VStr s
    /\ effective url (guessed_url_base env) = VStr u
    /\ startswith u "http" = true
    /\ effective origin (guessed_preferred_status_origin env) = VStr o
    /\ str_in o SUPPORTED_STATUS_ORIGIN = true
    /\ is_number (effective tmo (guessed_timeout env)) = true
    /\ w = {| self := {| _token := Some s;
                         _url_base := Some (rstrip_slash u);
                         _preferred_status_origin := Some o;
                         _is_modern_api := None;
                         _timeout := effective tmo (guessed_timeout env) |};
              sent := [] |}.
Proof.
  unfold run. rewrite init_run. intros H.
  apply bind_ok in H. destruct H as ([] & w1 & H1 & H).
  apply bind_ok in H. destruct H as ([] & w2 & H2 & H).
  apply bind_ok in H. destruct H as ([] & w3 & H3 & H4).
  apply assign_ok in H1. destruct H1 as (T1 & D1 & ->).
  apply assign_ok in H2. destruct H2 as (T2 & D2 & ->).
  apply assign_ok in H3. destruct H3 as (T3 & D3 & ->).
  apply assign_ok in H4. destruct H4 as (T4 & D4 & ->).
  destruct (effective tok (guessed_token env)) as [| | | |s| | | |];
    try discriminate.
  destruct (effective url (guessed_url_base env)) as [| | | |u| | | |];
    try discriminate.
  destruct (effective origin (guessed_preferred_status_origin env))
    as [| | | |o| | | |]; try discriminate.
  exists s, u, o. cbn [in_domain] in D2, D3.
  repeat (split; [first [reflexivity|assumption]|]).
  reflexivity.
Qed.

(** X10: what a successful construction stores.  The token is the argument
    when one is given, else the environment variable, else the empty string.
    The URL base is, without its trailing ['/'] characters: the argument;
    else, when a configuration is loaded, its URL base if that is a string
    and the standard one if not, the environment variable being ignored;
    else the environment variable; else the standard one.  The preferred
    status origin is the argument, else the one of the loaded configuration
    if it is a string, else the standard one.  The timeout is the argument,
    else the one of the loaded configuration, else the standard one.  The
    generation is not resolved and nothing has been sent. *)
Theorem X10_construction_result
  (env : environment) (tok url origin tmo : value) (w : world) :
  run (__init__ env tok url origin tmo) (fresh class_defaults) = (Ok tt, w) ->
  _token (self w)
  = Some (match tok with
          | VStr s => s
          | _ => match PYFUNCEBLE_COLLECTION_API_TOKEN env with
                 | Some s => s
                 | None => ""
                 end
          end)
  /\ _url_base (self w)
     = Some (rstrip_slash
               (match url with
                | VStr s => s
                | _ =>
                    match CONFIGURATION env with
                    | Some cfg =>
                        match collection_url_base cfg with
                        | VStr s => s
                        | _ => STD_URL_BASE
                        end
                    | None =>
                        match PYFUNCEBLE_COLLECTION_API_URL env with
                        | Some s => s
                        | None => STD_URL_BASE
                        end
                    end
                end))
  /\ _preferred_status_origin (self w)
     = Some (match origin with
             | VStr s => s
             | _ =>
                 match CONFIGURATION env with
                 | Some cfg =>
                     match collection_preferred_status_origin cfg with
                     | VStr s => s
                     | _ => STD_PREFERRED_STATUS_ORIGIN
                     end
                 | None => STD_PREFERRED_STATUS_ORIGIN
                 end
             end)
  /\ _timeout (self w)
     = match tmo with
       | VNone =>
           match CONFIGURATION env with
           | Some cfg => lookup_timeout cfg
           | None => STD_TIMEOUT
           end
       | _ => tmo
       end
  /\ _is_modern_api (self w) = None
  /\ sent w = [].
Proof.
  intros H.
  destruct (init_success env tok url origin tmo w H)
    as (s & u & o & Ht & Hu & _ & Ho & _ & _ & ->).
  cbn [self sent _token _url_base _preferred_status_origin _timeout
         _is_modern_api].
  split.
  { destruct tok; cbn [effective] in Ht; try discriminate.
    - unfold guessed_token, get_value in Ht.
      destruct (PYFUNCEBLE_COLLECTION_API_TOKEN env); congruence.
    - congruence. }
  split.
  { destruct url; cbn [effective] in Hu; try discriminate.
    - unfold guessed_url_base, get_value in Hu.
      destruct (CONFIGURATION env) as [cfg|].
      + destruct (collection_url_base cfg); congruence.
      + destruct (PYFUNCEBLE_COLLECTION_API_URL env); congruence.
    - congruence. }
  split.
  { destruct origin; cbn [effective] in Ho; try discriminate.
    - unfold guessed_preferred_status_origin in Ho.
      destruct (CONFIGURATION env) as [cfg|]; [|congruence].
      destruct (collection_preferred_status_origin cfg); congruence.
    - congruence. }
  split; [destruct tmo; reflexivity|].
  split; reflexivity.
Qed.

Lemma X10_construction_result_witness :
  self (after (__init__ odd_environment VNone VNone VNone VNone)
          (fresh class_defaults))
  = {| _token := Some "from-env";
       _url_base := Some "http://localhost:8001";
       _preferred_status_origin := Some "recommended";
       _is_modern_api := None;
       _timeout := VInt 3 |}.
Proof.
  pose proof (X10_construction_result odd_environment VNone VNone VNone VNone
                _ eq_refl) as (H1 & H2 & H3 & H4 & H5 & _).
  destruct (self _) as [t u o g tm]. cbn in *. congruence.
Defined.

Lemma effective_given (arg guessed : value) :
  arg <> VNone -> effective arg guessed = arg.
Proof. destruct arg; try reflexivity. congruence. Qed.

(** X11: arguments hide the environment.  When the four arguments of
    [__init__] are given, neither the environment variables nor the loaded
    configuration play any part: the construction does the same in every
    environment, whether it succeeds or raises. *)
Theorem X11_arguments_hide_environment
  (env env' : environment) (tok url origin tmo : value) (w : world) :
  tok <> VNone -> url <> VNone -> origin <> VNone -> tmo <> VNone ->
  run (__init__ env tok url origin tmo) w
  = run (__init__ env' tok url origin tmo) w.
Proof.
  intros H1 H2 H3 H4. unfold run. rewrite !init_run.
  rewrite !(effective_given tok), !(effective_given url),
    !(effective_given origin), !(effective_given tmo) by assumption.
  reflexivity.
Qed.

Lemma X11_arguments_hide_environment_witness :
  run (__init__ odd_environment (VStr "") (VStr "https://api.example.test")
         (VStr "latest") (VFloat (5 # 2))) (fresh class_defaults)
  = (Ok tt, anonymous_instance).
Proof.
  rewrite (X11_arguments_hide_environment odd_environment bare_environment);
    try discriminate.
  reflexivity.
Defined.

Lemma bind_returns {A B} (m : M A) (k : A -> M B) (w w1 : world) (a : A) :
  m w = (Ok a, w1) -> bind m k w = k a w1.
Proof. intros H. unfold bind. rewrite H. reflexivity. Qed.

Lemma bind_raises {A B} (m : M A) (k : A -> M B) (w w1 : world) (e : exn) :
  m w = (Raise e, w1) -> bind m k w = (Raise e, w1).
Proof. intros H. unfold bind. rewrite H. reflexivity. Qed.

Lemma assign_accepts (a : attribute) (v : value) (w : world) :
  well_typed a v = true -> in_domain a v = true ->
  assign a v w = (Ok tt, {| self := put a v (self w); sent := sent w |}).
Proof.
  intros Ht Hd. change (assign a v w) with (run (assign a v) w).
  rewrite assign_run, Ht, Hd. reflexivity.
Qed.

Lemma assign_rejects_type (a : attribute) (v : value) (w : world) :
  well_typed a v = false -> assign a v w = (Raise TypeError, w).
Proof.
  intros Ht. change (assign a v w) with (run (assign a v) w).
  rewrite assign_run, Ht. reflexivity.
Qed.

Lemma assign_rejects_value (a : attribute) (v : value) (w : world) :
  well_typed a v = true -> in_domain a v = false ->
  assign a v w = (Raise ValueError, w).
Proof.
  intros Ht Hd. change (assign a v w) with (run (assign a v) w).
  rewrite assign_run, Ht, Hd. reflexivity.
Qed.

(** X12: a construction that leaves an argument out fails on a bad
    environment.  Without a loaded configuration, an environment variable for
    the URL base that does not begin with [http] makes [__init__] without a
    [url_base] argument raise a value error.  With a loaded configuration
    whose timeout is not a number, [__init__] without a [timeout] argument
    raises a type error even when the other three arguments are given and
    accepted: unlike the URL base and the preferred status origin of a
    configuration, its timeout is not replaced by the standard one. *)
Theorem X12_construction_fails_on_bad_environment
  (env : environment) (tok origin tmo : value) :
  (tok = VNone \/ is_str tok = true ->
   CONFIGURATION env = None ->
   forall s, PYFUNCEBLE_COLLECTION_API_URL env = Some s ->
   startswith s "http" = false ->
   outcome_of (__init__ env tok VNone origin tmo) (fresh class_defaults)
   = Raise ValueError)
  /\ (is_str tok = true ->
      forall cfg u o, CONFIGURATION env = Some cfg ->
      is_number (lookup_timeout cfg) = false ->
      startswith u "http" = true ->
      str_in o SUPPORTED_STATUS_ORIGIN = true ->
      outcome_of (__init__ env tok (VStr u) (VStr o) VNone)
        (fresh class_defaults)
      = Raise TypeError).
Proof.
  split.
  - intros Htok Hc s Hs Hp. unfold outcome_of. rewrite init_run.
    assert (Ht : exists t, effective tok (guessed_token env) = VStr t).
    { destruct Htok as [->|Htok].
      - cbn [effective]. unfold guessed_token, get_value.
        destruct (PYFUNCEBLE_COLLECTION_API_TOKEN env); eexists; reflexivity.
      - destruct tok; try discriminate. eexists. reflexivity. }
    destruct Ht as [t ->].
    cbn [effective]. unfold guessed_url_base. rewrite Hc, Hs.
    cbn [get_value].
    erewrite bind_returns by (apply assign_accepts; reflexivity).
    erewrite bind_raises; [reflexivity|].
    apply assign_rejects_value; [reflexivity|exact Hp].
  - intros Htok cfg u o Hc Hn Hu Ho. unfold outcome_of. rewrite init_run.
    destruct tok; try discriminate.
    cbn [effective]. unfold guessed_timeout. rewrite Hc.
    erewrite bind_returns by (apply assign_accepts; reflexivity).
    erewrite bind_returns by (apply assign_accepts; [reflexivity|exact Hu]).
    erewrite bind_returns by (apply assign_accepts; [reflexivity|exact Ho]).
    rewrite assign_rejects_type by exact Hn. reflexivity.
Qed.

(** ** Guessing everything again *)

Lemma assign_frame (a : attribute) (v : value) (w : world) :
  sent (after (assign a v) w) = sent w
  /\ (a <> IsModernApi ->
      _is_modern_api (self (after (assign a v) w)) = _is_modern_api (self w))
  /\ (a <> Token -> _token (self (after (assign a v) w)) = _token (self w)).
Proof.
  unfold after. change (assign a v w) with (run (assign a v) w).
  rewrite assign_run.
  destruct (well_typed a v); [|auto].
  destruct (in_domain a v); [|auto].
  cbn [snd self sent].
  destruct a, v; repeat split; intros; try congruence; reflexivity.
Qed.

Lemma after_bind_returns {A B} (m : M A) (k : A -> M B) (w : world) (a : A) :
  outcome_of m w = Ok a -> after (bind m k) w = after (k a) (after m w).
Proof.
  unfold outcome_of, after, bind. destruct (m w) as [[a'|e] w1]; cbn [fst snd].
  - intros H. injection H as ->. reflexivity.
  - discriminate.
Qed.

(** After the guess of the generation, [guess_all_settings] touches neither
    the log, nor the generation, nor the token. *)
Lemma guess_all_settings_frame (net : service) (env : environment) (w : world) :
  let wg := after (guess_and_set_is_modern_api net) w in
  let w' := after (guess_all_settings net env) w in
  sent w' = sent wg
  /\ _is_modern_api (self w') = _is_modern_api (self wg)
  /\ _token (self w') = _token (self wg).
Proof.
  intros wg w'. subst w'. unfold guess_all_settings.
  set (P := fun w1 : world =>
              sent w1 = sent wg
              /\ _is_modern_api (self w1) = _is_modern_api (self wg)
              /\ _token (self w1) = _token (self wg)).
  assert (Hk : forall a v w1, a <> IsModernApi -> a <> Token ->
                              P w1 -> P (after (assign a v) w1)).
  { intros a v w1 H1 H2 (Q1 & Q2 & Q3).
    destruct (assign_frame a v w1) as (F1 & F2 & F3).
    unfold P. rewrite F1, F2, F3 by assumption. auto. }
  change (P (after
               (guess_and_set_is_modern_api net ;;;
                guess_and_set_preferred_status_origin env ;;;
                guess_and_set_timeout env ;;; guess_and_set_url_base env) w)).
  apply after_bind_invariant; [unfold P; auto|].
  intros _ w1 H1. apply after_bind_invariant.
  { unfold after. rewrite guess_preferred_status_origin_run.
    apply Hk; try discriminate. exact H1. }
  intros _ w2 H2. apply after_bind_invariant.
  { unfold after. rewrite guess_timeout_run. apply Hk; try discriminate.
    exact H2. }
  intros _ w3 H3. unfold after. rewrite guess_url_base_run.
  apply Hk; try discriminate. exact H3.
Qed.

(** X13: [guess_all_settings] detects the generation again, whatever it was
    before, and does so before it guesses the URL base.  Without a token it
    sends nothing and the generation becomes LEGACY, even when it had been
    assigned or resolved to MODERN.  With a token it sends exactly one
    request, the probe, to the URL base the instance had before the call;
    when the probe gives a response or raises an exception that is caught,
    the generation becomes what this probe says, whether or not a later guess
    of the call raises; when the probe raises an exception of another class,
    [guess_all_settings] raises it and leaves the instance as it was.  The
    token is left as it is in every case. *)
Theorem X13_guess_all_settings_detects_again
  (net : service) (env : environment) (w : world) :
  let probe :=
    mk_request GET (format_opt_str (_url_base (self w)) ++ "/v1/stats/subject")
      NoPayload (_timeout (self w)) in
  let w' := after (guess_all_settings net env) w in
  _token (self w') = _token (self w)
  /\ (no_token (self w) ->
      sent w' = sent w /\ api_generation (self w') = LEGACY)
  /\ (has_token (self w) ->
      sent w' = (sent w ++ [probe])%list
      /\ (settles (net (sent w) probe) = true ->
          api_generation (self w')
          = if probe_says_modern (net (sent w) probe) then MODERN else LEGACY)
      /\ (forall e, net (sent w) probe = Raised e -> caught e = false ->
          run (guess_all_settings net env) w
          = (Raise e, {| self := self w; sent := sent w ++ [probe] |}))).
Proof.
  intros probe w'. change probe with (probe_request (self w)).
  destruct (guess_all_settings_frame net env w) as (F1 & F2 & F3).
  fold w' in F1, F2, F3.
  unfold api_generation. rewrite F1, F2, F3. unfold after.
  change (guess_and_set_is_modern_api net w)
    with (run (guess_and_set_is_modern_api net) w).
  split.
  { destruct (guess_cases net w) as [[_ ->]|[(_ & _ & ->)|(e & _ & _ & _ & ->)]];
      reflexivity. }
  split.
  { intros Ht. rewrite guess_no_token by exact Ht. split; reflexivity. }
  intros Ht. split; [|split].
  - destruct (guess_cases net w) as [[Hn _]|[(_ & _ & ->)|(e & _ & _ & _ & ->)]];
      try reflexivity.
    unfold no_token, has_token in *. congruence.
  - intros Hs. rewrite guess_with_token by assumption.
    cbn [snd self resolved _is_modern_api].
    destruct (probe_says_modern _); reflexivity.
  - intros e Ho He. unfold guess_all_settings.
    rewrite (bind_after_raises _ _ w e).
    + unfold after.
      change (guess_and_set_is_modern_api net w)
        with (run (guess_and_set_is_modern_api net) w).
      rewrite (guess_crashes net w e) by assumption. reflexivity.
    + unfold outcome_of.
      change (guess_and_set_is_modern_api net w)
        with (run (guess_and_set_is_modern_api net) w).
      rewrite (guess_crashes net w e) by assumption. reflexivity.
Qed.

(** X14: when [guess_all_settings] returns, the URL base, the preferred
    status origin and the timeout of the instance are those of an instance
    constructed in the same environment with a token only, whatever they were
    before the call; and such a construction succeeds. *)
Theorem X14_guess_all_settings_restores_environment
  (net : service) (env : environment) (w : world) :
  outcome_of (guess_all_settings net env) w = Ok tt ->
  exists w0,
    run (__init__ env (VStr "") VNone VNone VNone) (fresh class_defaults)
    = (Ok tt, w0)
    /\ _url_base (self (after (guess_all_settings net env) w))
       = _url_base (self w0)
    /\ _preferred_status_origin (self (after (guess_all_settings net env) w))
       = _preferred_status_origin (self w0)
    /\ _timeout (self (after (guess_all_settings net env) w))
       = _timeout (self w0).
Proof.
  unfold outcome_of, after.
  destruct (guess_all_settings net env w) as [r w'] eqn:E. cbn [fst snd].
  intros ->. unfold guess_all_settings in E.
  apply bind_ok in E. destruct E as ([] & w1 & _ & E).
  apply bind_ok in E. destruct E as ([] & w2 & E2 & E).
  apply bind_ok in E. destruct E as ([] & w3 & E3 & E4).
  rewrite guess_preferred_status_origin_run in E2.
  rewrite guess_timeout_run in E3.
  rewrite guess_url_base_run in E4.
  apply assign_ok in E2. destruct E2 as (T2 & D2 & ->).
  apply assign_ok in E3. destruct E3 as (T3 & D3 & ->).
  apply assign_ok in E4. destruct E4 as (T4 & D4 & ->).
  eexists. split.
  { unfold run. rewrite init_run. cbn [effective].
    erewrite bind_returns by (apply assign_accepts; reflexivity).
    erewrite bind_returns by (apply assign_accepts; assumption).
    erewrite bind_returns by (apply assign_accepts; assumption).
    apply assign_accepts; assumption. }
  cbn [self].
  destruct (guessed_url_base env); try discriminate.
  destruct (guessed_preferred_status_origin env); try discriminate.
  repeat split.
Qed.

Lemma X14_guess_all_settings_restores_environment_witness :
  exists w0,
    run (__init__ bare_environment (VStr "") VNone VNone VNone)
      (fresh class_defaults) = (Ok tt, w0)
    /\ _url_base (self (after (guess_all_settings (always found) bare_environment)
                          token_instance))
       = _url_base (self w0)
    /\ _preferred_status_origin
         (self (after (guess_all_settings (always found) bare_environment)
                  token_instance))
       = _preferred_status_origin (self w0)
    /\ _timeout (self (after (guess_all_settings (always found) bare_environment)
                         token_instance))
       = _timeout (self w0).
Proof.
  apply (X14_guess_all_settings_restores_environment (always found)
           bare_environment token_instance).
  reflexivity.
Defined.

(** X15: only [set_is_modern_api] and [guess_all_settings] touch a resolved
    generation.  An assignment to the token, the URL base, the preferred
    status origin or the timeout leaves the generation as it is, so that the
    next [pull] sends no probe: a generation resolved for one token or one
    URL base is kept for the next. *)
Theorem X15_assignment_keeps_generation
  (net : service) (a : attribute) (v : value) (w : world) (s : string) :
  a <> IsModernApi -> api_generation (self w) <> UNKNOWN ->
  api_generation (self (after (assign a v) w)) = api_generation (self w)
  /\ probes (sent (after (pull net (VStr s)) (after (assign a v) w)))
     = probes (sent w)
  /\ api_generation (self (after (pull net (VStr s)) (after (assign a v) w)))
     = api_generation (self w).
Proof.
  intros Ha Hg.
  destruct (assign_frame a v w) as (F1 & F2 & _). specialize (F2 Ha).
  assert (Hgen : api_generation (self (after (assign a v) w))
                 = api_generation (self w))
    by (unfold api_generation; rewrite F2; reflexivity).
  split; [exact Hgen|].
  destruct (perform_resolved net (Pull (VStr s)) (after (assign a v) w))
    as [H1 H2]; [rewrite Hgen; exact Hg|].
  cbn [perform] in H1, H2. rewrite H1, H2, F1. auto.
Qed.

Lemma X15_assignment_keeps_generation_witness :
  api_generation
    (self (after (assign Token (VStr "secret")) legacy_anonymous_instance))
  = LEGACY
  /\ probes (sent (after (pull (always found) (VStr "test.tld"))
                     (after (assign Token (VStr "secret"))
                        legacy_anonymous_instance)))
     = 0%nat.
Proof.
  pose proof (X15_assignment_keeps_generation (always found) Token
                (VStr "secret") legacy_anonymous_instance "test.tld") as H.
  destruct H as (H1 & H2 & _); [discriminate|discriminate|].
  split; [exact H1|exact H2].
Defined.

(** ** When [push] raises *)

(** X16: when [push] raises, exactly, in a call during which the calls of
    the session are harmless (each call and, for a POST, [response.json()]
    on its answer raise nothing but the exceptions the methods catch).
    [push] raises a type error exactly when its argument is not a status
    record, or is one whose subject or checker type is not a string.  It
    raises a value error exactly when the argument is a record with a string
    subject and a string checker type, and either the subject is empty, or a
    token is configured and the lower-cased checker type is not supported.
    It raises nothing else. *)
Theorem X16_push_raises_exactly (net : service) (v : value) (w : world) :
  calm net w (after (push net v) w) ->
  (outcome_of (push net v) w = Raise TypeError
   <-> is_status v = false
       \/ exists st, v = VStatus st
            /\ (is_str (subject st) = false \/ is_str (checker_type st) = false))
  /\ (outcome_of (push net v) w = Raise ValueError
      <-> exists st subj ct, v = VStatus st
            /\ subject st = VStr subj /\ checker_type st = VStr ct
            /\ (subj = ""
                \/ (has_token (self w)
                    /\ str_in (lower ct) SUPPORTED_CHECKERS = false)))
  /\ (forall e, outcome_of (push net v) w = Raise e ->
        e = TypeError \/ e = ValueError).
Proof.
  intros Htame. pose proof (push_classify net v w Htame) as H.
  split; [|split].
  - split.
    + intros Ho.
      destruct H as [[Hv _]|[(st & -> & Hs & _)|[(st & subj & ct & _ & _ & _ & _ & Hr)
                                                 |(st & subj & ct & r & _ & _ & _ & _ & _ & Hr)]]];
        try congruence; eauto.
    + intros [Hv|(st & -> & Hs)].
      * destruct H as [[_ Hr]|[(st & -> & _ & Hr)|[(st & subj & ct & -> & _)
                                                   |(st & subj & ct & r & -> & _)]]];
          try assumption; discriminate.
      * destruct H as [[Hv _]|[(st' & _ & _ & Hr)|[(st' & subj & ct & E & Es & Ec & _)
                                                   |(st' & subj & ct & r & E & Es & _ & Ec & _)]]];
          try assumption; try discriminate;
          injection E as <-; rewrite Es, Ec in Hs; destruct Hs; discriminate.
  - split.
    + intros Ho.
      destruct H as [[_ Hr]|[(st & _ & _ & Hr)|[(st & subj & ct & -> & Es & Ec & Hc & _)
                                                |(st & subj & ct & r & _ & _ & _ & _ & _ & Hr)]]];
        try congruence.
      exists st, subj, ct. repeat (split; [first [reflexivity|assumption]|]).
      destruct Hc as [Hc|(_ & Hc1 & Hc2)]; auto.
    + intros (st & subj & ct & -> & Es & Ec & Hc).
      destruct H as [[Hv _]|[(st' & E & Hs & _)|[(st' & subj' & ct' & _ & _ & _ & _ & Hr)
                                                 |(st' & subj' & ct' & r & E & Es' & Hne & Ec' & Hok & _)]]];
        try assumption; try discriminate.
      * injection E as <-. rewrite Es, Ec in Hs. destruct Hs; discriminate.
      * injection E as <-. rewrite Es in Es'. rewrite Ec in Ec'.
        injection Es' as <-. injection Ec' as <-.
        destruct Hc as [Hc|[Ht Hu]]; [contradiction|].
        destruct Hok as [Hno|Hsup]; [|congruence].
        unfold no_token, has_token in *. congruence.
  - intros e He.
    destruct H as [[_ Hr]|[(st & _ & _ & Hr)|[(st & subj & ct & _ & _ & _ & _ & Hr)
                                              |(st & subj & ct & r & _ & _ & _ & _ & _ & Hr)]]];
      rewrite Hr in He; try discriminate; injection He as <-; auto.
Qed.

Lemma X16_push_raises_exactly_witness :
  outcome_of (push (always found) (VStatus (dated_status "bogus")))
    legacy_token_instance
  = Raise ValueError.
Proof.
  apply (X16_push_raises_exactly (always found)
           (VStatus (dated_status "bogus")) legacy_token_instance).
  { intros l1 r l2 _. unfold harmless. destruct (is_probe r); reflexivity. }
  exists (dated_status "bogus"), "example.org", "bogus".
  repeat (split; [reflexivity|]).
  right. split; reflexivity.
Defined.

(** ** The initial migration *)

Module MigrationFacts.

Import Migration.

Lemma has_table_app (name : string) (db : database) (t : table) :
  has_table name (db ++ [t])%list
  = (has_table name db || (table_name t =? name)%string)%bool.
Proof.
  unfold has_table. rewrite existsb_app. cbn [existsb].
  rewrite orb_false_r. reflexivity.
Qed.

Lemma filter_absent (name : string) (db : database) :
  has_table name db = false ->
  filter (fun t => negb (table_name t =? name)%string) db = db.
Proof.
  induction db as [|t db IH]; [reflexivity|].
  cbn [has_table existsb filter]. intros H.
  apply orb_false_elim in H. destruct H as [H1 H2].
  rewrite H1. cbn [negb]. rewrite IH by exact H2. reflexivity.
Qed.

Lemma create_fresh (name : string) cols cons (db : database) :
  has_table name db = false ->
  create_table name cols cons db = Some (db ++ [Table name cols cons])%list.
Proof. intros H. unfold create_table. rewrite H. reflexivity. Qed.

Lemma create_taken (name : string) cols cons (db : database) :
  has_table name db = true -> create_table name cols cons db = None.
Proof. intros H. unfold create_table. rewrite H. reflexivity. Qed.

Lemma drop_created (name : string) cols cons (db : database) :
  has_table name db = false ->
  drop_table name (db ++ [Table name cols cons])%list = Some db.
Proof.
  intros H. unfold drop_table.
  rewrite has_table_app. cbn [table_name]. rewrite String.eqb_refl, orb_true_r.
  rewrite filter_app, filter_absent by exact H.
  cbn [filter table_name]. rewrite String.eqb_refl. cbn [negb].
  rewrite app_nil_r. reflexivity.
Qed.

Lemma clean_inv (db : database) :
  clean db = true ->
  has_table "pyfunceble_continue" db = false
  /\ has_table "pyfunceble_inactive" db = false
  /\ has_table "pyfunceble_whois_record" db = false.
Proof.
  unfold clean. intros H.
  apply andb_prop in H. destruct H as [H H3].
  apply andb_prop in H. destruct H as [H1 H2].
  apply negb_true_iff in H1, H2, H3. auto.
Qed.

End MigrationFacts.

(** X17: the initial migration undoes itself.  On a database that has none
    of the tables [pyfunceble_continue], [pyfunceble_inactive] and
    [pyfunceble_whois_record], [upgrade] succeeds and adds these three tables
    after the ones the database has, and [downgrade] on the result gives the
    database back; [upgrade] cannot be run a second time on its result, and
    [downgrade] cannot be run on a database that lacks the tables. *)
Theorem X17_migration_undoes_itself (db : Migration.database) :
  Migration.clean db = true ->
  exists t1 t2 t3,
    Migration.upgrade db = Some (((db ++ [t1]) ++ [t2]) ++ [t3])%list
    /\ map Migration.table_name [t1; t2; t3]
       = ["pyfunceble_continue"; "pyfunceble_inactive";
          "pyfunceble_whois_record"]
    /\ Migration.downgrade (((db ++ [t1]) ++ [t2]) ++ [t3])%list = Some db
    /\ Migration.upgrade (((db ++ [t1]) ++ [t2]) ++ [t3])%list = None
    /\ Migration.downgrade db = None.
Proof.
  intros H. destruct (MigrationFacts.clean_inv db H) as (Hc & Hi & Hw).
  unfold Migration.upgrade, Migration.and_then.
  rewrite MigrationFacts.create_fresh by exact Hc.
  rewrite MigrationFacts.create_fresh
    by (rewrite MigrationFacts.has_table_app, Hi; reflexivity).
  rewrite MigrationFacts.create_fresh
    by (rewrite !MigrationFacts.has_table_app, Hw; reflexivity).
  do 3 eexists.
  split; [reflexivity|]. split; [reflexivity|].
  split.
  { unfold Migration.downgrade, Migration.and_then.
    rewrite MigrationFacts.drop_created
      by (rewrite !MigrationFacts.has_table_app, Hw; reflexivity).
    rewrite MigrationFacts.drop_created
      by (rewrite MigrationFacts.has_table_app, Hi; reflexivity).
    apply MigrationFacts.drop_created, Hc. }
  split.
  { rewrite MigrationFacts.create_taken; [reflexivity|].
    rewrite !MigrationFacts.has_table_app. cbn [Migration.table_name].
    rewrite String.eqb_refl. rewrite orb_true_r. reflexivity. }
  unfold Migration.downgrade, Migration.drop_table, Migration.and_then.
  rewrite Hw. reflexivity.
Qed.

Lemma X17_migration_undoes_itself_witness :
  exists t1 t2 t3,
    Migration.upgrade Migration.other_database
    = Some (((Migration.other_database ++ [t1]) ++ [t2]) ++ [t3])%list
    /\ map Migration.table_name [t1; t2; t3]
       = ["pyfunceble_continue"; "pyfunceble_inactive";
          "pyfunceble_whois_record"]
    /\ Migration.downgrade
         (((Migration.other_database ++ [t1]) ++ [t2]) ++ [t3])%list
       = Some Migration.other_database
    /\ Migration.upgrade
         (((Migration.other_database ++ [t1]) ++ [t2]) ++ [t3])%list = None
    /\ Migration.downgrade Migration.other_database = None.
Proof.
  apply (X17_migration_undoes_itself Migration.other_database). reflexivity.
Defined.
